(** * ziggo: the ZigBee network registry

    A shallow embedding of package [zigbee] (addresses, devices and the
    [Network] state with its listeners and JSON persistence hooks), and the
    properties of the registry proved over it.

    Conventions.
    - [uint32] and [uint64] values are modelled as [N]; the code performs no
      arithmetic on them, so no wrap-around is involved.  Every statement
      below holds for all of [N], hence for the bounded ranges.
    - Go strings are Rocq strings; Go maps are [gmap]s; slices are lists
      (a nil slice is the empty list).
    - The three [sync.RWMutex] fields serialise the operations; the model is
      the sequential behaviour of one operation at a time and leaves the
      locks out. *)

From Stdlib Require Import Ascii.
From stdpp Require Import base option list strings pretty gmap fin_maps.

Open Scope string_scope.
Open Scope N_scope.
Open Scope list_scope.

(** ** Addresses (address.go) *)

(** [fmt.Sprintf("%d", x)] for an unsigned integer: the decimal digits of
    [x] with no sign and no leading zero ("0" for zero). *)
Definition fmt_d (x : N) : string := pretty x.

Module DeviceAddress.
Record t := Build { NetworkAddress : N; Endpoint : N }.

Definition IsGroup (a : t) : bool := false.

Definition String (a : t) : string :=
    fmt_d (NetworkAddress a) +:+ "/" +:+ fmt_d (Endpoint a).
End DeviceAddress.

Module GroupAddress.
Record t := Build { GroupID : N; Label : string }.

Definition IsGroup (a : t) : bool := true.

Definition String (a : t) : string :=
    fmt_d (GroupID a) +:+ "/" +:+ Label a.
End GroupAddress.

(** The [Address] interface has two implementations in the package. *)
Inductive Address :=
  | UnicastAddress (a : DeviceAddress.t)
  | MulticastAddress (a : GroupAddress.t).

Definition Address_IsGroup (address : Address) : bool :=
  match address with
  | UnicastAddress a => DeviceAddress.IsGroup a
  | MulticastAddress a => GroupAddress.IsGroup a
  end.

Definition Address_String (address : Address) : string :=
  match address with
  | UnicastAddress a => DeviceAddress.String a
  | MulticastAddress a => GroupAddress.String a
  end.

(** ** Devices (device.go) *)

Module Device.
Record t := Build {
    IEEEAddress : N;
    NetworkAddress : DeviceAddress.t;
    ProfileID : N;
    DeviceType : N;
    DeviceID : N;
    ManufacturerCode : N;
    DeviceVersion : N;
    InputClusterIds : list N;
    OutputClusterIds : list N;
    Label : string
  }.

(** [Device{}] *)
Definition zero : t :=
    Build 0 (DeviceAddress.Build 0 0) 0 0 0 0 0 [] [] EmptyString.

(** The key a device is stored under: [device.NetworkAddress.String()]. *)
Definition key (device : t) : string :=
    DeviceAddress.String (NetworkAddress device).
End Device.

#[global] Instance DeviceAddress_eq_dec : EqDecision DeviceAddress.t.
Proof. solve_decision. Defined.
#[global] Instance GroupAddress_eq_dec : EqDecision GroupAddress.t.
Proof. solve_decision. Defined.
#[global] Instance Device_eq_dec : EqDecision Device.t.
Proof. solve_decision. Defined.

(** ** The network state (network.go) *)

(** Go's [error] values.  [Wrapf cause msg] is [errors.Wrapf(cause, ...)]
    with the format already filled in. *)
Inductive error :=
| ErrorString (msg : string)
| Wrapf (cause : error) (msg : string).

(** A Go result pair [(value, error)] of which exactly one side is
    meaningful. *)
Inductive result (A : Type) :=
| Ok (a : A)
| Err (e : error).
Arguments Ok {A} a.
Arguments Err {A} e.

(** A [NetworkListener] interface value, up to the [==] the registry
    compares listeners with: the identity of the listener object. *)
Definition NetworkListener := nat.

(** The three methods of the [NetworkListener] interface. *)
Inductive Notification :=
| DeviceAdded (device : Device.t)
| DeviceUpdated (device : Device.t)
| DeviceRemoved (device : Device.t).

(** One invocation of a listener method by the registry, together with
    the content of the registry's devices map at the moment of the call.
    Listener bodies are outside the package; they are assumed not to call
    back into the registry. *)
Record Call := MkCall {
  callee : NetworkListener;
  method : Notification;
  devices_at_call : gmap string Device.t
}.

Record Network := MkNetwork {
  devices : gmap string Device.t;
  groups : gmap N GroupAddress.t;
  listeners : list NetworkListener;
  reset : bool;
  filePath : string
}.

Definition with_devices (m : gmap string Device.t) (n : Network) : Network :=
  MkNetwork m (groups n) (listeners n) (reset n) (filePath n).

Definition with_groups (m : gmap N GroupAddress.t) (n : Network) : Network :=
  MkNetwork (devices n) m (listeners n) (reset n) (filePath n).

Definition with_listeners (ls : list NetworkListener) (n : Network) : Network :=
  MkNetwork (devices n) (groups n) ls (reset n) (filePath n).

Definition defaultStateFilePath : string := "simple-network.json".

Definition NewNetworkState (reset : bool) : Network :=
  MkNetwork ∅ ∅ [] reset defaultStateFilePath.

Definition AddGroup (address : GroupAddress.t) (n : Network) : Network :=
  with_groups (<[GroupAddress.GroupID address := address]> (groups n)) n.

Definition UpdateGroup (address : GroupAddress.t) (n : Network) : Network :=
  with_groups (<[GroupAddress.GroupID address := address]> (groups n)) n.

Definition RemoveGroup (address : GroupAddress.t) (n : Network) : Network :=
  with_groups (delete (GroupAddress.GroupID address) (groups n)) n.

(** [address, ok := n.groups[groupID]]: the zero value when absent. *)
Definition Group (groupID : N) (n : Network) : GroupAddress.t * bool :=
  match groups n !! groupID with
  | Some address => (address, true)
  | None => (GroupAddress.Build 0 EmptyString, false)
  end.

(** [range] over a Go map visits every entry once, in an order the
    language leaves open.  The model visits them in the order of
    [map_to_list]; the statements about [Groups] and [Devices] below are
    about membership and multiplicity only. *)
Definition Groups (n : Network) : list GroupAddress.t :=
  (map_to_list (groups n)).*2.

(** The loop [for _, listener := range n.listeners { listener.M(device) }],
    run on state [n]. *)
Definition notify (m : Device.t → Notification) (device : Device.t)
    (n : Network) : list Call :=
  (λ listener, MkCall listener (m device) (devices n)) <$> listeners n.

Definition AddDevice (device : Device.t) (n : Network) : Network * list Call :=
  let n := with_devices (<[Device.key device := device]> (devices n)) n in
  (n, notify DeviceAdded device n).

Definition UpdateDevice (device : Device.t) (n : Network) : Network * list Call :=
  let n := with_devices (<[Device.key device := device]> (devices n)) n in
  (n, notify DeviceUpdated device n).

Definition RemoveDevice (device : Device.t) (n : Network) : Network * list Call :=
  let n := with_devices (delete (Device.key device) (devices n)) n in
  (n, notify DeviceRemoved device n).

Definition Device (address : Address) (n : Network) : Device.t * bool :=
  if Address_IsGroup address then (Device.zero, false)
  else
    match devices n !! Address_String address with
    | Some device => (device, true)
    | None => (Device.zero, false)
    end.

Definition Devices (n : Network) : list Device.t :=
  (map_to_list (devices n)).*2.

(** The search loops of [AddNetworkListener] and [RemoveNetworkListener]:
    the index of the first [l == listener]. *)
Fixpoint index_of (listener : NetworkListener) (ls : list NetworkListener)
    : option nat :=
  match ls with
  | [] => None
  | l :: ls' =>
      if decide (l = listener) then Some 0%nat
      else S <$> index_of listener ls'
  end.

Definition AddNetworkListener (listener : NetworkListener) (n : Network)
    : Network :=
  match index_of listener (listeners n) with
  | Some _ => n
  | None => with_listeners (listeners n ++ [listener]) n
  end.

(** Overwrite slot [i] with the last element, then drop the last slot. *)
Definition RemoveNetworkListener (listener : NetworkListener) (n : Network)
    : Network :=
  match index_of listener (listeners n), last (listeners n) with
  | Some i, Some final =>
      with_listeners
        (take (length (listeners n) - 1) (<[i := final]> (listeners n))) n
  | _, _ => n
  end.

Module serializedNetwork.
Record t := Build {
  Devices : list Device.t;
  Groups : list GroupAddress.t
}.
End serializedNetwork.

#[global] Instance serializedNetwork_eq_dec : EqDecision serializedNetwork.t.
Proof. solve_decision. Defined.

(** What the package takes from outside: [encoding/json] applied to a
    [serializedNetwork], and the two file operations of [Startup].
    - [json_Marshal state] is [json.Marshal(state)];
    - [json_Unmarshal data] is [json.Unmarshal(data, &state)] on a zero
      [state]: the decoded value, or the error (the partly filled [state]
      is dropped by the caller in that case);
    - [os_Stat path] is the error result of [os.Stat(path)], [None] for nil;
    - [ioutil_ReadFile path] is [ioutil.ReadFile(path)]. *)
Class Runtime := MkRuntime {
  json_Marshal : serializedNetwork.t → result string;
  json_Unmarshal : string → result serializedNetwork.t;
  os_Stat : string → option error;
  ioutil_ReadFile : string → result string
}.

Section persistence.
Context `{rt : Runtime}.

Definition MarshalJSON (n : Network) : result string :=
  let state := serializedNetwork.Build (Devices n) (Groups n) in
  json_Marshal state.

(** The two [range] loops of [UnmarshalJSON]. *)
Definition store_devices (l : list Device.t) (n : Network) : Network :=
  foldl (λ n device,
    with_devices (<[Device.key device := device]> (devices n)) n) n l.

Definition store_groups (l : list GroupAddress.t) (n : Network) : Network :=
  foldl (λ n group,
    with_groups (<[GroupAddress.GroupID group := group]> (groups n)) n) n l.

Definition UnmarshalJSON (data : string) (n : Network)
    : Network * option error :=
  match json_Unmarshal data with
  | Err err => (n, Some err)
  | Ok state =>
      let n := store_devices (serializedNetwork.Devices state) n in
      let n := store_groups (serializedNetwork.Groups state) n in
      (n, None)
  end.

(** [json.Unmarshal(bytes, n)] with [n] a [*Network]: the decoder hands
    the document to the receiver's own [UnmarshalJSON]. *)
Definition json_Unmarshal_Network (data : string) (n : Network)
    : Network * option error :=
  UnmarshalJSON data n.

Definition Startup (n : Network) : Network * option error :=
  let filePath := filePath n in
  let err := os_Stat filePath in
  if negb (reset n) && bool_decide (err = None) then
    match ioutil_ReadFile filePath with
    | Err err =>
        (n, Some (Wrapf err ("Unable to read content of file " +:+ filePath)))
    | Ok bytes =>
        match json_Unmarshal_Network bytes n with
        | (n, Some err) =>
            (n, Some (Wrapf err
               ("Unable to unmarshal network state from file " +:+ filePath)))
        | (n, None) => (n, None)
        end
    end
  else (n, None).

(** *** Histories of calls *)

Inductive Op :=
| OpAddGroup (address : GroupAddress.t)
| OpUpdateGroup (address : GroupAddress.t)
| OpRemoveGroup (address : GroupAddress.t)
| OpAddDevice (device : Device.t)
| OpUpdateDevice (device : Device.t)
| OpRemoveDevice (device : Device.t)
| OpAddNetworkListener (listener : NetworkListener)
| OpRemoveNetworkListener (listener : NetworkListener)
| OpUnmarshalJSON (data : string)
| OpStartup.

(** One call: the new state and the listener invocations it made. *)
Definition exec (op : Op) (n : Network) : Network * list Call :=
  match op with
  | OpAddGroup a => (AddGroup a n, [])
  | OpUpdateGroup a => (UpdateGroup a n, [])
  | OpRemoveGroup a => (RemoveGroup a n, [])
  | OpAddDevice d => AddDevice d n
  | OpUpdateDevice d => UpdateDevice d n
  | OpRemoveDevice d => RemoveDevice d n
  | OpAddNetworkListener l => (AddNetworkListener l n, [])
  | OpRemoveNetworkListener l => (RemoveNetworkListener l n, [])
  | OpUnmarshalJSON data => ((UnmarshalJSON data n).1, [])
  | OpStartup => ((Startup n).1, [])
  end.

(** A sequence of calls, oldest first: the final state. *)
Definition run (ops : list Op) (n : Network) : Network :=
  foldl (λ n op, (exec op n).1) n ops.

End persistence.

(** A device upsert is a call of [AddDevice] or of [UpdateDevice]. *)
Inductive Upsert :=
| ByAddDevice (device : Device.t)
| ByUpdateDevice (device : Device.t).

Definition upserted (u : Upsert) : Device.t :=
  match u with
  | ByAddDevice d => d
  | ByUpdateDevice d => d
  end.

Definition Upsert_op (u : Upsert) : Op :=
  match u with
  | ByAddDevice d => OpAddDevice d
  | ByUpdateDevice d => OpUpdateDevice d
  end.

(** The device of the latest upsert in [us] (oldest first) whose
    network-address string is [k]. *)
Fixpoint most_recent (k : string) (us : list Upsert) : option Device.t :=
  match us with
  | [] => None
  | u :: us' =>
      match most_recent k us' with
      | Some d => Some d
      | None =>
          if decide (Device.key (upserted u) = k) then Some (upserted u)
          else None
      end
  end.

(** The listeners a history registers, in call order, and whether it
    removes any. *)
Definition registered (ops : list Op) : list NetworkListener :=
  omap (λ op, match op with OpAddNetworkListener l => Some l | _ => None end) ops.

Definition removes_no_listener (ops : list Op) : bool :=
  forallb (λ op,
    match op with OpRemoveNetworkListener _ => false | _ => true end) ops.

(** A sequence of registrations with the repeated ones left out. *)
Fixpoint first_occurrences (ls : list NetworkListener) : list NetworkListener :=
  match ls with
  | [] => []
  | l :: ls' => l :: filter (λ l', l' ≠ l) (first_occurrences ls')
  end.

(** Every value of the map sits under its own key. *)
Definition keyed_by {K V : Type} `{Countable K} (key : V → K)
    (m : gmap K V) : Prop :=
  ∀ k v, m !! k = Some v → key v = k.

(** Every stored device sits under its own network-address string and
    every stored group under its own group id. *)
Definition consistent (n : Network) : Prop :=
  keyed_by Device.key (devices n) ∧
  keyed_by GroupAddress.GroupID (groups n).

(** Devices [D] and groups [G] put into a registry with [AddDevice] and
    [AddGroup]. *)
Definition populate (D : list Device.t) (G : list GroupAddress.t)
    (n : Network) : Network :=
  foldl (λ n a, AddGroup a n) (foldl (λ n d, (AddDevice d n).1) n D) G.

(** The map left by storing the values [l] one after the other, each
    under its own key. *)
Definition upsert_all {K V : Type} `{Countable K} (key : V → K)
    (m : gmap K V) (l : list V) : gmap K V :=
  foldl (λ m v, <[key v := v]> m) m l.

(** ** A concrete runtime to run the operations on

    An encoder that prints a snapshot as the JSON document named by the
    struct tags (for labels of plain printable characters; an empty slice
    is printed as [null], as a nil slice is), a decoder that recognises the
    documents of a given list of snapshots and rejects every other input,
    and a table of files. *)

Definition quote : string := String "034"%char EmptyString.

Fixpoint json_join (l : list string) : string :=
  match l with
  | [] => EmptyString
  | [x] => x
  | x :: l' => x +:+ "," +:+ json_join l'
  end.

Definition json_array (l : list string) : string :=
  match l with
  | [] => "null"
  | _ => "[" +:+ json_join l +:+ "]"
  end.

Definition json_object (members : list string) : string :=
  "{" +:+ json_join members +:+ "}".

Definition json_member (name value : string) : string :=
  quote +:+ name +:+ quote +:+ ":" +:+ value.

Definition json_string (s : string) : string := quote +:+ s +:+ quote.

Definition DeviceAddress_json (a : DeviceAddress.t) : string :=
  json_object [
    json_member "networkAddress" (fmt_d (DeviceAddress.NetworkAddress a));
    json_member "endpoint" (fmt_d (DeviceAddress.Endpoint a)) ].

Definition GroupAddress_json (a : GroupAddress.t) : string :=
  json_object [
    json_member "groupId" (fmt_d (GroupAddress.GroupID a));
    json_member "label" (json_string (GroupAddress.Label a)) ].

Definition Device_json (d : Device.t) : string :=
  json_object [
    json_member "ieeeAddress" (fmt_d (Device.IEEEAddress d));
    json_member "networkAddress" (DeviceAddress_json (Device.NetworkAddress d));
    json_member "profileId" (fmt_d (Device.ProfileID d));
    json_member "deviceType" (fmt_d (Device.DeviceType d));
    json_member "deviceId" (fmt_d (Device.DeviceID d));
    json_member "manufacturerCode" (fmt_d (Device.ManufacturerCode d));
    json_member "deviceVersion" (fmt_d (Device.DeviceVersion d));
    json_member "inputClusterIds" (json_array (fmt_d <$> Device.InputClusterIds d));
    json_member "outputClusterIds" (json_array (fmt_d <$> Device.OutputClusterIds d));
    json_member "label" (json_string (Device.Label d)) ].

Definition serializedNetwork_json (state : serializedNetwork.t) : string :=
  json_object [
    json_member "devices" (json_array (Device_json <$> serializedNetwork.Devices state));
    json_member "groups" (json_array (GroupAddress_json <$> serializedNetwork.Groups state)) ].

(** Letters, digits and space: text that JSON prints as it is. *)
Definition plain_char (c : ascii) : bool :=
  let k := nat_of_ascii c in
  (k =? 32)%nat || ((48 <=? k) && (k <=? 57))%nat
  || ((65 <=? k) && (k <=? 90))%nat || ((97 <=? k) && (k <=? 122))%nat.

Fixpoint plain_text (s : string) : bool :=
  match s with
  | EmptyString => true
  | String c s' => plain_char c && plain_text s'
  end.

Definition plain_snapshot (state : serializedNetwork.t) : bool :=
  forallb (λ d, plain_text (Device.Label d)) (serializedNetwork.Devices state)
  && forallb (λ g, plain_text (GroupAddress.Label g)) (serializedNetwork.Groups state).

Definition print_snapshot (state : serializedNetwork.t) : result string :=
  if plain_snapshot state then Ok (serializedNetwork_json state)
  else Err (ErrorString "json: unsupported label").

Definition recognise_snapshot (known : list serializedNetwork.t) (data : string)
    : result serializedNetwork.t :=
  match find (λ state,
      match print_snapshot state with
      | Ok text => bool_decide (text = data)
      | Err _ => false
      end) known with
  | Some state => Ok state
  | None => Err (ErrorString "invalid character")
  end.

Definition stat_in (files : gmap string (result string)) (path : string)
    : option error :=
  match files !! path with
  | Some _ => None
  | None => Some (ErrorString "stat: no such file or directory")
  end.

Definition read_in (files : gmap string (result string)) (path : string)
    : result string :=
  match files !! path with
  | Some content => content
  | None => Err (ErrorString "open: no such file or directory")
  end.

Definition table_runtime (known : list serializedNetwork.t)
    (files : gmap string (result string)) : Runtime :=
  MkRuntime print_snapshot (recognise_snapshot known)
    (stat_in files) (read_in files).

(** Sample devices and groups: a bulb and a plug at different addresses,
    and a lamp at the address of the bulb. *)
Definition bulb : Device.t :=
  Device.Build 43707 (DeviceAddress.Build 1 1) 260 0 256 4107 1 [0; 6] [] "bulb".

Definition plug : Device.t :=
  Device.Build 52445 (DeviceAddress.Build 2 1) 260 0 81 4107 1 [0; 6] [25] "plug".

Definition lamp : Device.t :=
  Device.Build 61183 (DeviceAddress.Build 1 1) 260 0 256 4107 2 [0; 6; 8] [] "lamp".

Definition kitchen : GroupAddress.t := GroupAddress.Build 7 "kitchen".

Definition hall : GroupAddress.t := GroupAddress.Build 9 "hall".

Definition snapshot_of (n : Network) : serializedNetwork.t :=
  serializedNetwork.Build (Devices n) (Groups n).

(** A home with the bulb, the plug and two groups; a registry that knows
    the bulb only; one in which the lamp took the place of the bulb. *)
Definition home : Network :=
  populate [bulb; plug] [kitchen; hall] (NewNetworkState false).

Definition bulb_only : Network := populate [bulb] [] (NewNetworkState false).

Definition relamped : Network := populate [bulb; lamp] [] (NewNetworkState false).

Definition plug_document : string :=
  serializedNetwork_json (serializedNetwork.Build [plug] []).

(** The state file holds the plug; the decoder knows the snapshots of the
    sample registries. *)
Definition sample_files : gmap string (result string) :=
  {[ defaultStateFilePath := Ok plug_document ]}.

Definition sample_runtime : Runtime :=
  table_runtime
    [ snapshot_of home; snapshot_of relamped;
      serializedNetwork.Build [plug] [] ]
    sample_files.

(** A string has no ['/'] in it. *)
Fixpoint slash_free (s : string) : Prop :=
  match s with
  | EmptyString => True
  | String c s' => c ≠ "/"%char ∧ slash_free s'
  end.

(** ** Saving the state ([Shutdown])

    Two more things come from outside: [ioutil.WriteFile], by its error
    result, and the [*json.MarshalerError] in which [json.Marshal] wraps an
    error of the [MarshalJSON] hook it calls. *)

Section shutdown.
Context `{rt : Runtime}.
Variable json_MarshalerError : error → error.
Variable ioutil_WriteFile : string → string → N → option error.

(** [json.Marshal(n)] with [n] a [*Network]: the encoder calls the
    receiver's own [MarshalJSON]; the document of the hook, itself the
    output of [json.Marshal], passes the encoder's re-scan unchanged. *)
Definition json_Marshal_Network (n : Network) : result string :=
  match MarshalJSON n with
  | Ok bytes => Ok bytes
  | Err err => Err (json_MarshalerError err)
  end.

(** The permission bits [0644]. *)
Definition state_file_mode : N := 420.

Definition Shutdown (n : Network) : option error :=
  match json_Marshal_Network n with
  | Err err =>
      Some (Wrapf err ("Unable to marshal network state to file " +:+ filePath n))
  | Ok bytes =>
      match ioutil_WriteFile (filePath n) bytes state_file_mode with
      | Some err =>
          Some (Wrapf err ("Unabel to write content to file " +:+ filePath n))
      | None => None
      end
  end.

End shutdown.

(** ** Sequences of group calls *)

Inductive GroupCall :=
| ByAddGroup (address : GroupAddress.t)
| ByUpdateGroup (address : GroupAddress.t)
| ByRemoveGroup (address : GroupAddress.t).

Definition GroupCall_op (c : GroupCall) : Op :=
  match c with
  | ByAddGroup a => OpAddGroup a
  | ByUpdateGroup a => OpUpdateGroup a
  | ByRemoveGroup a => OpRemoveGroup a
  end.

Definition GroupCall_id (c : GroupCall) : N :=
  match c with
  | ByAddGroup a => GroupAddress.GroupID a
  | ByUpdateGroup a => GroupAddress.GroupID a
  | ByRemoveGroup a => GroupAddress.GroupID a
  end.

(** What the call leaves under its group id. *)
Definition GroupCall_entry (c : GroupCall) : option GroupAddress.t :=
  match c with
  | ByAddGroup a => Some a
  | ByUpdateGroup a => Some a
  | ByRemoveGroup _ => None
  end.

(** The entry left by the latest call in [cs] (oldest first) on group id
    [id]; [None] when no call of [cs] is on [id]. *)
Fixpoint latest_group_call (id : N) (cs : list GroupCall)
    : option (option GroupAddress.t) :=
  match cs with
  | [] => None
  | c :: cs' =>
      match latest_group_call id cs' with
      | Some entry => Some entry
      | None =>
          if decide (GroupCall_id c = id) then Some (GroupCall_entry c)
          else None
      end
  end.

(** A [WriteFile] that always succeeds, and a registry that knows the
    plug only. *)
Definition write_accepted (path data : string) (mode : N) : option error := None.

Definition plug_only : Network := populate [plug] [] (NewNetworkState false).

(** ** [encoding/json] as a lossless codec

    What the package relies on when it writes a snapshot with
    [json.Marshal] and reads it back with [json.Unmarshal]: a document the
    encoder produced for a snapshot decodes to that snapshot. *)
Definition json_lossless (rt : Runtime) : Prop :=
  ∀ state data,
    @json_Marshal rt state = Ok data → @json_Unmarshal rt data = Ok state.

(** An encoder for the snapshots of a given list only, so that the
    decoder of that list reads back whatever it wrote. *)
Definition print_known (known : list serializedNetwork.t)
    (state : serializedNetwork.t) : result string :=
  if bool_decide (state ∈ known) then print_snapshot state
  else Err (ErrorString "json: unsupported value").

Definition known_snapshots : list serializedNetwork.t :=
  [ snapshot_of home; snapshot_of relamped;
    serializedNetwork.Build [plug] [] ].

Definition lossless_runtime : Runtime :=
  MkRuntime (print_known known_snapshots) (recognise_snapshot known_snapshots)
    (stat_in sample_files) (read_in sample_files).

(** A system on which [os.Stat] is refused although the files of the
    table are there and can be read. *)
Definition ErrPermission : error := ErrorString "permission denied".

Definition unstatable_runtime (files : gmap string (result string)) : Runtime :=
  MkRuntime print_snapshot (recognise_snapshot known_snapshots)
    (λ path, Some (Wrapf ErrPermission ("stat " +:+ path))) (read_in files).

(** * Properties *)

(** ** Decimal rendering never contains the separator *)

Lemma pretty_N_char_not_slash x : pretty_N_char x ≠ "/"%char.
Proof. unfold pretty_N_char. by repeat case_match. Qed.

Lemma pretty_N_go_slash_free x : ∀ s, slash_free s → slash_free (pretty_N_go x s).
Proof.
  induction (N.lt_wf_0 x) as [x _ IH]; intros s Hs.
  destruct (decide (x = 0)) as [->|Hx].
  - by rewrite pretty_N_go_0.
  - rewrite pretty_N_go_step by lia.
    apply IH.
    + apply N.div_lt; lia.
    + split; [apply pretty_N_char_not_slash | done].
Qed.

Lemma fmt_d_slash_free x : slash_free (fmt_d x).
Proof.
  unfold fmt_d, pretty, pretty_N. case_decide.
  - by repeat split.
  - by apply pretty_N_go_slash_free.
Qed.

Lemma fmt_d_inj x y : fmt_d x = fmt_d y → x = y.
Proof. apply pretty_N_inj. Qed.

(** Two strings that agree once a slash-free prefix and the separator are
    put in front agree part by part. *)
Lemma split_at_first_slash s1 : ∀ s2 t1 t2,
  slash_free s1 → slash_free s2 →
  s1 +:+ "/" +:+ t1 = s2 +:+ "/" +:+ t2 → s1 = s2 ∧ t1 = t2.
Proof.
  induction s1 as [|c s1 IH]; intros [|c' s2] t1 t2 H1 H2 Heq; simpl in *.
  - by injection Heq.
  - injection Heq as Hc _. destruct H2 as [H2 _]. by destruct H2.
  - injection Heq as Hc _. destruct H1 as [H1 _]. by destruct H1.
  - injection Heq as -> Heq.
    destruct H1 as [_ H1], H2 as [_ H2].
    destruct (IH s2 t1 t2 H1 H2 Heq) as [-> ->]. done.
Qed.

Lemma DeviceAddress_String_fields (a b : DeviceAddress.t) :
  DeviceAddress.String a = DeviceAddress.String b →
  DeviceAddress.NetworkAddress a = DeviceAddress.NetworkAddress b ∧
  DeviceAddress.Endpoint a = DeviceAddress.Endpoint b.
Proof.
  unfold DeviceAddress.String. intros Heq.
  apply split_at_first_slash in Heq; try apply fmt_d_slash_free.
  destruct Heq as [Hn He]. split; by apply fmt_d_inj.
Qed.

Lemma DeviceAddress_String_eq (a b : DeviceAddress.t) :
  DeviceAddress.String a = DeviceAddress.String b ↔ a = b.
Proof.
  split; [|by intros ->].
  intros H. apply DeviceAddress_String_fields in H.
  destruct a, b; simpl in *. destruct H; by subst.
Qed.

(** C10: [DeviceAddress.String] is injective: two device addresses with the
    same rendering have the same network address and the same endpoint. *)
Theorem DeviceAddress_String_inj (a b : DeviceAddress.t) :
  DeviceAddress.String a = DeviceAddress.String b →
  DeviceAddress.NetworkAddress a = DeviceAddress.NetworkAddress b ∧
  DeviceAddress.Endpoint a = DeviceAddress.Endpoint b.
Proof. apply DeviceAddress_String_fields. Qed.

Lemma DeviceAddress_String_inj_witness :
  DeviceAddress.String (DeviceAddress.Build 4660 1) =
    DeviceAddress.String (DeviceAddress.Build 4660 1) ∧
  4660 = 4660 ∧ 1 = 1.
Proof.
  split; [reflexivity|].
  apply (DeviceAddress_String_inj (DeviceAddress.Build 4660 1) (DeviceAddress.Build 4660 1)).
  reflexivity.
Defined.


Example fmt_examples :
  DeviceAddress.String (DeviceAddress.Build 4660 10) = "4660/10" ∧
  GroupAddress.String kitchen = "7/kitchen" ∧ fmt_d 0 = "0".
Proof. repeat split; vm_compute; reflexivity. Qed.

(** ** Maps whose values carry their key *)

Section keyed.
Context {K V : Type} `{Countable K} (key : V → K).

Lemma keyed_by_empty : keyed_by key (∅ : gmap K V).
Proof. intros k v. by rewrite lookup_empty. Qed.

Lemma keyed_by_insert (m : gmap K V) v :
  keyed_by key m → keyed_by key (<[key v := v]> m).
Proof.
  intros Hm k v'. rewrite lookup_insert. case_decide.
  - by intros [= <-].
  - apply Hm.
Qed.

Lemma keyed_by_delete (m : gmap K V) k :
  keyed_by key m → keyed_by key (delete k m).
Proof.
  intros Hm k' v. rewrite lookup_delete. case_decide; [done | apply Hm].
Qed.

Lemma keyed_by_upsert_all l : ∀ m : gmap K V,
  keyed_by key m → keyed_by key (upsert_all key m l).
Proof.
  induction l as [|v l IH]; intros m Hm; [done|].
  apply IH. by apply keyed_by_insert.
Qed.

Lemma elem_of_values (m : gmap K V) v :
  v ∈ (map_to_list m).*2 ↔ ∃ k, m !! k = Some v.
Proof.
  rewrite list_elem_of_fmap. split.
  - intros [[k v'] [-> Hin]]. exists k. by apply elem_of_map_to_list.
  - intros [k Hk]. exists (k, v). split; [done | by apply elem_of_map_to_list].
Qed.

Lemma elem_of_values_keyed (m : gmap K V) v :
  keyed_by key m → v ∈ (map_to_list m).*2 ↔ m !! key v = Some v.
Proof.
  intros Hm. rewrite elem_of_values. split.
  - intros [k Hk]. by rewrite (Hm _ _ Hk).
  - eauto.
Qed.

(** The keys of the values are the keys of the map, each once. *)
Lemma keys_of_values (m : gmap K V) :
  keyed_by key m → key <$> (map_to_list m).*2 = (map_to_list m).*1.
Proof.
  intros Hm. rewrite <- list_fmap_compose.
  apply Forall_fmap_ext_1, Forall_forall. intros [k v] Hin.
  apply elem_of_map_to_list in Hin. simpl. by apply Hm.
Qed.

Lemma keys_of_values_NoDup (m : gmap K V) :
  keyed_by key m → NoDup (key <$> (map_to_list m).*2).
Proof. intros Hm. rewrite keys_of_values by done. apply NoDup_fst_map_to_list. Qed.

Lemma upsert_all_snoc (m : gmap K V) l v :
  upsert_all key m (l ++ [v]) = <[key v := v]> (upsert_all key m l).
Proof. unfold upsert_all. by rewrite foldl_app. Qed.

Lemma upsert_all_absent l : ∀ (m : gmap K V) k,
  k ∉ key <$> l → upsert_all key m l !! k = m !! k.
Proof.
  induction l as [|v l IH]; intros m k Hk; simpl; [done|].
  rewrite fmap_cons, not_elem_of_cons in Hk. destruct Hk as [Hne Hk].
  unfold upsert_all in *. simpl. rewrite IH by done. by rewrite lookup_insert_ne.
Qed.

Lemma upsert_all_present l : ∀ (m : gmap K V) v,
  NoDup (key <$> l) → v ∈ l → upsert_all key m l !! key v = Some v.
Proof.
  induction l as [|x l IH]; intros m v Hnd Hin; [by apply elem_of_nil in Hin|].
  rewrite fmap_cons, NoDup_cons in Hnd. destruct Hnd as [Hx Hnd].
  unfold upsert_all in *. simpl.
  apply elem_of_cons in Hin as [->|Hin].
  - pose proof (upsert_all_absent l (<[key x := x]> m) (key x) Hx) as E.
    unfold upsert_all in E. rewrite E. apply lookup_insert_eq.
  - by apply IH.
Qed.

(** A map is rebuilt by storing its own values, in any order, when every
    value sits under its own key. *)
Lemma upsert_all_rebuild (m : gmap K V) (l : list V) :
  keyed_by key m →
  l ≡ₚ (map_to_list m).*2 →
  upsert_all key ∅ l = m.
Proof.
  intros Hm Hl.
  assert (Hkeys : key <$> l ≡ₚ (map_to_list m).*1).
  { by rewrite Hl, keys_of_values. }
  assert (Hnd : NoDup (key <$> l)).
  { rewrite Hkeys. apply NoDup_fst_map_to_list. }
  apply map_eq. intros k.
  destruct (m !! k) as [v|] eqn:Hk.
  - rewrite <- (Hm _ _ Hk). apply upsert_all_present; [done|].
    rewrite Hl. apply elem_of_values. eauto.
  - rewrite upsert_all_absent; [apply lookup_empty|].
    rewrite Hkeys. intros Hin. apply list_elem_of_fmap in Hin as [[k' v] [-> Hin]].
    apply elem_of_map_to_list in Hin. simpl in Hk. congruence.
Qed.

End keyed.

(** ** The two maps of the registry *)

Lemma elem_of_Devices n d :
  d ∈ Devices n ↔ ∃ k, devices n !! k = Some d.
Proof. apply elem_of_values. Qed.

Lemma elem_of_Devices_keyed n d :
  consistent n → d ∈ Devices n ↔ devices n !! Device.key d = Some d.
Proof. intros [Hd _]. by apply elem_of_values_keyed. Qed.

Lemma elem_of_Groups n g :
  g ∈ Groups n ↔ ∃ k, groups n !! k = Some g.
Proof. apply elem_of_values. Qed.

Lemma elem_of_Groups_keyed n g :
  consistent n → g ∈ Groups n ↔ groups n !! GroupAddress.GroupID g = Some g.
Proof. intros [_ Hg]. by apply elem_of_values_keyed. Qed.

Lemma store_devices_spec l : ∀ n,
  store_devices l n = with_devices (upsert_all Device.key (devices n) l) n.
Proof.
  induction l as [|d l IH]; intros n; simpl.
  - by destruct n.
  - unfold store_devices in *. simpl. by rewrite IH.
Qed.

Lemma store_groups_spec l : ∀ n,
  store_groups l n = with_groups (upsert_all GroupAddress.GroupID (groups n) l) n.
Proof.
  induction l as [|g l IH]; intros n; simpl.
  - by destruct n.
  - unfold store_groups in *. simpl. by rewrite IH.
Qed.

(** ** Histories *)

Section histories.
Context `{rt : Runtime}.

Lemma run_app ops1 ops2 n : run (ops1 ++ ops2) n = run ops2 (run ops1 n).
Proof. unfold run. apply foldl_app. Qed.

Lemma run_cons op ops n : run (op :: ops) n = run ops (exec op n).1.
Proof. done. Qed.

Lemma UnmarshalJSON_Ok data state n :
  json_Unmarshal data = Ok state →
  UnmarshalJSON data n =
    (MkNetwork
       (upsert_all Device.key (devices n) (serializedNetwork.Devices state))
       (upsert_all GroupAddress.GroupID (groups n) (serializedNetwork.Groups state))
       (listeners n) (reset n) (filePath n), None).
Proof.
  intros E. unfold UnmarshalJSON. rewrite E.
  by rewrite store_groups_spec, store_devices_spec.
Qed.

Lemma UnmarshalJSON_Err data e n :
  json_Unmarshal data = Err e → UnmarshalJSON data n = (n, Some e).
Proof. intros E. unfold UnmarshalJSON. by rewrite E. Qed.

(** [Startup] leaves the state alone or applies [UnmarshalJSON] to it. *)
Lemma Startup_state n :
  (Startup n).1 = n ∨ ∃ data, (Startup n).1 = (UnmarshalJSON data n).1.
Proof.
  unfold Startup, json_Unmarshal_Network.
  destruct (negb (reset n) && bool_decide (os_Stat (filePath n) = None)); [|by left].
  destruct (ioutil_ReadFile (filePath n)) as [data|e]; [|by left].
  right. exists data. by destruct (UnmarshalJSON data n) as [n' [e|]].
Qed.

Lemma consistent_UnmarshalJSON data n :
  consistent n → consistent (UnmarshalJSON data n).1.
Proof.
  intros [Hd Hg]. destruct (json_Unmarshal data) as [state|e] eqn:E.
  - rewrite (UnmarshalJSON_Ok _ _ _ E). split; simpl; by apply keyed_by_upsert_all.
  - by rewrite (UnmarshalJSON_Err _ _ _ E).
Qed.

Lemma consistent_exec op n : consistent n → consistent (exec op n).1.
Proof.
  intros Hn. pose proof Hn as [Hd Hg]. destruct op; simpl; try done.
  - split; [done | by apply keyed_by_insert].
  - split; [done | by apply keyed_by_insert].
  - split; [done | by apply keyed_by_delete].
  - split; [by apply keyed_by_insert | done].
  - split; [by apply keyed_by_insert | done].
  - split; [by apply keyed_by_delete | done].
  - unfold AddNetworkListener. by destruct (index_of _ _).
  - unfold RemoveNetworkListener.
    by destruct (index_of _ _), (last (listeners n)).
  - by apply consistent_UnmarshalJSON.
  - destruct (Startup_state n) as [->|[data ->]]; [done|].
    by apply consistent_UnmarshalJSON.
Qed.

Lemma consistent_run ops : ∀ n, consistent n → consistent (run ops n).
Proof.
  induction ops as [|op ops IH]; intros n Hn; [done|].
  rewrite run_cons. by apply IH, consistent_exec.
Qed.

(** Every registry that a history of calls builds from a new one is
    consistent. *)
Lemma consistent_history r ops : consistent (run ops (NewNetworkState r)).
Proof. apply consistent_run. split; apply keyed_by_empty. Qed.

(** The entry under [k] after a sequence of upserts. *)
Lemma lookup_after_upserts us : ∀ n k,
  devices (run (Upsert_op <$> us) n) !! k =
    match most_recent k us with
    | Some d => Some d
    | None => devices n !! k
    end.
Proof.
  induction us as [|u us IH]; intros n k; [done|].
  rewrite fmap_cons, run_cons, IH. simpl.
  destruct (most_recent k us) as [d|]; [done|].
  destruct u as [d|d]; simpl; rewrite lookup_insert; by case_decide.
Qed.

Lemma most_recent_key k us d : most_recent k us = Some d → Device.key d = k.
Proof.
  induction us as [|u us IH]; simpl; [done|].
  destruct (most_recent k us); [auto|].
  case_decide; [|done]. by intros [= <-].
Qed.

End histories.

(** C1: after any sequence of [AddDevice] and [UpdateDevice] calls, made on
    a registry with any earlier history, [Devices] holds at most one entry
    per network-address string, and the entry of a string that was upserted
    is the device of the most recent upsert under that string. *)
Theorem Devices_one_per_key_most_recent `{rt : Runtime}
    (r : bool) (history : list Op) (us : list Upsert) :
  let n := run (Upsert_op <$> us) (run history (NewNetworkState r)) in
  NoDup (Device.key <$> Devices n) ∧
  ∀ k d, most_recent k us = Some d →
    d ∈ Devices n ∧
    ∀ d', d' ∈ Devices n → Device.key d' = k → d' = d.
Proof.
  intros n.
  assert (Hn : consistent n).
  { apply consistent_run, consistent_history. }
  split; [apply keys_of_values_NoDup, Hn|].
  intros k d Hrecent.
  assert (Hlook : devices n !! k = Some d).
  { unfold n. by rewrite lookup_after_upserts, Hrecent. }
  pose proof (most_recent_key _ _ _ Hrecent) as Hk.
  split.
  - apply elem_of_Devices. eauto.
  - intros d' Hin Hk'. apply elem_of_Devices_keyed in Hin; [|done].
    rewrite Hk' in Hin. congruence.
Qed.

(** ** Listeners *)

Lemma index_of_None listener ls :
  index_of listener ls = None ↔ listener ∉ ls.
Proof.
  induction ls as [|l ls IH]; simpl.
  - split; [intros _; apply not_elem_of_nil | done].
  - rewrite not_elem_of_cons. case_decide as Hl.
    + split; [done | intros [Hne _]; by destruct Hne].
    + destruct (index_of listener ls); simpl.
      * split; [done|]. intros [_ Hin]. by apply IH in Hin.
      * split; [|done]. intros _. split; [done | by apply IH].
Qed.

Lemma elem_of_first_occurrences l ls : l ∈ first_occurrences ls ↔ l ∈ ls.
Proof.
  induction ls as [|x ls IH]; simpl; [done|].
  rewrite !elem_of_cons, list_elem_of_filter, IH.
  destruct (decide (l = x)); naive_solver.
Qed.

Lemma NoDup_first_occurrences ls : NoDup (first_occurrences ls).
Proof.
  induction ls as [|x ls IH]; simpl; [constructor|].
  apply NoDup_cons. split.
  - rewrite list_elem_of_filter. naive_solver.
  - by apply NoDup_filter.
Qed.

Lemma first_occurrences_snoc ls l :
  first_occurrences (ls ++ [l]) =
    if decide (l ∈ ls) then first_occurrences ls
    else first_occurrences ls ++ [l].
Proof.
  induction ls as [|x ls IH]; simpl.
  - done.
  - rewrite IH. destruct (decide (l ∈ ls)) as [Hin|Hin].
    + rewrite decide_True; [done|]. by apply elem_of_cons; right.
    + rewrite filter_app, filter_cons, filter_nil.
      destruct (decide (l ≠ x)) as [Hne|Heq];
        destruct (decide (l ∈ x :: ls)) as [Hin'|Hin'].
      * apply elem_of_cons in Hin' as [?|?]; done.
      * done.
      * by rewrite app_nil_r.
      * destruct Hin'. apply elem_of_cons. left. by destruct (decide (l = x)).
Qed.

Lemma filter_ne_absent (x : NetworkListener) (ls : list NetworkListener) :
  x ∉ ls → filter (λ l', l' ≠ x) ls = ls.
Proof.
  induction ls as [|y ls IH]; [done|].
  rewrite not_elem_of_cons. intros [Hne Hx].
  rewrite filter_cons, decide_True by done. by rewrite IH.
Qed.

Lemma first_occurrences_NoDup ls : NoDup ls → first_occurrences ls = ls.
Proof.
  induction 1 as [|x ls Hx Hnd IH]; simpl; [done|].
  rewrite IH. f_equal. by apply filter_ne_absent.
Qed.

Lemma AddNetworkListener_listeners listener n :
  listeners (AddNetworkListener listener n) =
    if decide (listener ∈ listeners n) then listeners n
    else listeners n ++ [listener].
Proof.
  unfold AddNetworkListener.
  destruct (index_of listener (listeners n)) as [i|] eqn:E.
  - rewrite decide_True; [done|].
    destruct (decide (listener ∈ listeners n)) as [|Hout]; [done|].
    apply index_of_None in Hout. congruence.
  - apply index_of_None in E. by rewrite decide_False.
Qed.

Section listeners.
Context `{rt : Runtime}.

(** Only the two listener operations touch the listener list. *)
Lemma exec_listeners op n :
  listeners (exec op n).1 =
    match op with
    | OpAddNetworkListener l => listeners (AddNetworkListener l n)
    | OpRemoveNetworkListener l => listeners (RemoveNetworkListener l n)
    | _ => listeners n
    end.
Proof.
  destruct op; simpl; try done.
  - unfold UnmarshalJSON. destruct (json_Unmarshal data); [|done].
    by rewrite store_groups_spec, store_devices_spec.
  - destruct (Startup_state n) as [->|[data ->]]; [done|].
    unfold UnmarshalJSON. destruct (json_Unmarshal data); [|done].
    by rewrite store_groups_spec, store_devices_spec.
Qed.

(** Without removals the listener list is the sequence of registrations,
    repeated registrations left out. *)
Lemma listeners_history r ops :
  removes_no_listener ops = true →
  listeners (run ops (NewNetworkState r)) = first_occurrences (registered ops).
Proof.
  induction ops as [|op ops IH] using rev_ind; intros Hops; [done|].
  unfold removes_no_listener in *. rewrite forallb_app in Hops.
  apply andb_true_iff in Hops as [Hops Hop]. specialize (IH Hops).
  rewrite run_app. simpl. rewrite exec_listeners.
  unfold registered in *. rewrite omap_app. simpl.
  destruct op; simpl in *; rewrite ?app_nil_r; try done.
  rewrite AddNetworkListener_listeners, IH, first_occurrences_snoc.
  destruct (decide (listener ∈ omap _ ops)) as [Hin|Hin].
  - rewrite decide_True; [done | by apply elem_of_first_occurrences].
  - rewrite decide_False; [done | by rewrite elem_of_first_occurrences].
Qed.

End listeners.

(** C2: on a registry whose history registered listeners and removed none,
    one [AddDevice d] calls [DeviceAdded d] on every registered listener
    exactly once, in the order of registration; at each of these calls [d]
    is already stored in the devices map, and the calls are part of what
    [AddDevice] has done when it returns. *)
Theorem AddDevice_notifies_in_registration_order `{rt : Runtime}
    (r : bool) (ops : list Op) (d : Device.t) :
  removes_no_listener ops = true →
  let n := run ops (NewNetworkState r) in
  let n' := (AddDevice d n).1 in
  let calls := (AddDevice d n).2 in
  callee <$> calls = first_occurrences (registered ops) ∧
  (NoDup (registered ops) → callee <$> calls = registered ops) ∧
  NoDup (callee <$> calls) ∧
  (∀ l, l ∈ registered ops ↔ l ∈ callee <$> calls) ∧
  devices n' !! Device.key d = Some d ∧
  Forall (λ c, method c = DeviceAdded d ∧ devices_at_call c = devices n') calls.
Proof.
  intros Hops n n' calls.
  assert (Hcallee : callee <$> calls = first_occurrences (registered ops)).
  { unfold calls, AddDevice, notify. simpl.
    rewrite <- list_fmap_compose. simpl.
    rewrite <- (listeners_history r ops Hops).
    apply list_fmap_id. }
  rewrite Hcallee. split; [done|]. split; [|split; [|split; [|split]]].
  - intros Hnd. by apply first_occurrences_NoDup.
  - apply NoDup_first_occurrences.
  - intros l. symmetry. apply elem_of_first_occurrences.
  - apply lookup_insert_eq.
  - apply Forall_forall. intros c Hc.
    unfold calls, AddDevice, notify in Hc. simpl in Hc.
    apply list_elem_of_fmap in Hc as [l [-> _]]. done.
Qed.

Lemma AddDevice_notifies_in_registration_order_witness :
  let ops := [OpAddNetworkListener 3%nat; OpAddDevice plug;
              OpAddNetworkListener 5%nat; OpAddNetworkListener 3%nat] in
  removes_no_listener ops = true ∧
  callee <$> (AddDevice bulb (@run sample_runtime ops (NewNetworkState false))).2
    = [3%nat; 5%nat].
Proof.
  split; [reflexivity|].
  refine (proj1 (@AddDevice_notifies_in_registration_order sample_runtime false
    [OpAddNetworkListener 3%nat; OpAddDevice plug;
     OpAddNetworkListener 5%nat; OpAddNetworkListener 3%nat] bulb _)).
  reflexivity.
Defined.

(** ** Storing a list of values whose keys identify them *)

Section functional_keys.
Context {K V : Type} `{Countable K} (key : V → K).

Lemma upsert_all_origin l : ∀ (m : gmap K V) k v,
  upsert_all key m l !! k = Some v → (v ∈ l ∧ key v = k) ∨ m !! k = Some v.
Proof.
  induction l as [|x l IH]; intros m k v Hk; [by right|].
  apply IH in Hk as [[Hin Hk]|Hk].
  - left. split; [by right | done].
  - rewrite lookup_insert in Hk. case_decide as Hx.
    + injection Hk as ->. left. split; [by left | done].
    + by right.
Qed.

(** When no two different values of [l] share a key, every value of [l]
    is found under its key. *)
Lemma upsert_all_functional l : ∀ (m : gmap K V) v,
  (∀ x y, x ∈ l → y ∈ l → key x = key y → x = y) →
  v ∈ l → upsert_all key m l !! key v = Some v.
Proof.
  induction l as [|x l IH] using rev_ind; intros m v Hfun Hin;
    [by apply elem_of_nil in Hin|].
  rewrite upsert_all_snoc, lookup_insert. case_decide as Hx.
  - f_equal. apply Hfun; [apply elem_of_app; right; by left | done | done].
  - apply IH.
    + intros a b Ha Hb. apply Hfun; apply elem_of_app; by left.
    + apply elem_of_app in Hin as [Hin|Hin]; [done|].
      apply list_elem_of_singleton in Hin. by subst.
Qed.

End functional_keys.

Lemma populate_devices D : ∀ G n,
  devices (populate D G n) = upsert_all Device.key (devices n) D.
Proof.
  unfold populate. intros G n.
  assert (HG : ∀ G n', devices (foldl (λ n a, AddGroup a n) n' G) = devices n').
  { clear. induction G as [|g G IH]; intros n'; [done|]. simpl. by rewrite IH. }
  rewrite HG. clear HG. revert n.
  induction D as [|d D IH]; intros n; [done|]. simpl. by rewrite IH.
Qed.

Lemma populate_groups G : ∀ D n,
  groups (populate D G n) = upsert_all GroupAddress.GroupID (groups n) G.
Proof.
  unfold populate. intros D n.
  assert (HD : ∀ D n', groups (foldl (λ n d, (AddDevice d n).1) n' D) = groups n').
  { clear. induction D as [|d D IH]; intros n'; [done|]. simpl. by rewrite IH. }
  rewrite <- (HD D n). generalize (foldl (λ n d, (AddDevice d n).1) n D). clear.
  induction G as [|g G IH]; intros n; [done|]. simpl. by rewrite IH.
Qed.

Lemma consistent_populate D G r : consistent (populate D G (NewNetworkState r)).
Proof.
  split.
  - rewrite populate_devices. apply keyed_by_upsert_all, keyed_by_empty.
  - rewrite populate_groups. apply keyed_by_upsert_all, keyed_by_empty.
Qed.

(** ** Persistence *)


Lemma lossless_runtime_lossless : json_lossless lossless_runtime.
Proof.
  intros state data Hprint. simpl in *. unfold print_known in Hprint.
  destruct (bool_decide (state ∈ known_snapshots)) eqn:E; [|done].
  apply bool_decide_eq_true in E. unfold known_snapshots in E.
  repeat (apply elem_of_cons in E as [->|E]);
    [..|by apply elem_of_nil in E];
    vm_compute in Hprint; injection Hprint as <-; vm_compute; reflexivity.
Qed.



(** C4: [UnmarshalJSON] merges.  On a registry with any history, a device
    whose network-address string is not that of a device of the snapshot,
    and a group whose id is not that of a group of the snapshot, are still
    there afterwards; in particular a device [X] of the registry and the
    only device [Y] of the snapshot, with different network-address
    strings, are both present afterwards. *)
Theorem UnmarshalJSON_merges `{rt : Runtime}
    (r : bool) (history : list Op) (data : string) (state : serializedNetwork.t) :
  let n := run history (NewNetworkState r) in
  json_Unmarshal data = Ok state →
  let n' := (UnmarshalJSON data n).1 in
  (UnmarshalJSON data n).2 = None ∧
  (∀ X, X ∈ Devices n →
     Device.key X ∉ Device.key <$> serializedNetwork.Devices state →
     X ∈ Devices n') ∧
  (∀ g, g ∈ Groups n →
     GroupAddress.GroupID g ∉
       GroupAddress.GroupID <$> serializedNetwork.Groups state →
     g ∈ Groups n') ∧
  (∀ X Y, X ∈ Devices n → serializedNetwork.Devices state = [Y] →
     Device.key Y ≠ Device.key X →
     X ∈ Devices n' ∧ Y ∈ Devices n').
Proof.
  intros n Hdec n'.
  pose proof (consistent_history r history) as Hn. fold n in Hn.
  assert (Hn' : consistent n') by apply consistent_UnmarshalJSON, Hn.
  assert (Ed : devices n' =
    upsert_all Device.key (devices n) (serializedNetwork.Devices state)).
  { unfold n'. by rewrite (UnmarshalJSON_Ok _ _ _ Hdec). }
  assert (Eg : groups n' =
    upsert_all GroupAddress.GroupID (groups n) (serializedNetwork.Groups state)).
  { unfold n'. by rewrite (UnmarshalJSON_Ok _ _ _ Hdec). }
  assert (Hkeep : ∀ X, X ∈ Devices n →
     Device.key X ∉ Device.key <$> serializedNetwork.Devices state →
     X ∈ Devices n').
  { intros X HX Hout. apply elem_of_Devices_keyed in HX; [|done].
    apply elem_of_Devices. exists (Device.key X).
    by rewrite Ed, upsert_all_absent. }
  split; [by rewrite (UnmarshalJSON_Ok _ _ _ Hdec)|].
  split; [done|]. split.
  - intros g Hg Hout. apply elem_of_Groups_keyed in Hg; [|done].
    apply elem_of_Groups. exists (GroupAddress.GroupID g).
    by rewrite Eg, upsert_all_absent.
  - intros X Y HX HY Hne. split.
    + apply Hkeep; [done|]. rewrite HY. simpl.
      intros Hin. apply list_elem_of_singleton in Hin. congruence.
    + apply elem_of_Devices. exists (Device.key Y).
      rewrite Ed, HY. simpl. apply lookup_insert_eq.
Qed.

Lemma UnmarshalJSON_merges_witness :
  @json_Unmarshal sample_runtime plug_document
    = Ok (serializedNetwork.Build [plug] []) ∧
  bulb ∈ Devices (@UnmarshalJSON sample_runtime plug_document
                    (@run sample_runtime [OpAddDevice bulb] (NewNetworkState false))).1 ∧
  plug ∈ Devices (@UnmarshalJSON sample_runtime plug_document
                    (@run sample_runtime [OpAddDevice bulb] (NewNetworkState false))).1.
Proof.
  split; [vm_compute; reflexivity|].
  refine (proj2 (proj2 (proj2 (@UnmarshalJSON_merges sample_runtime false
    [OpAddDevice bulb] plug_document (serializedNetwork.Build [plug] []) _)))
    bulb plug _ _ _).
  - vm_compute; reflexivity.
  - vm_compute. by left.
  - reflexivity.
  - vm_compute. discriminate.
Defined.

(** C5: [Device] on a group address returns the zero device and [false],
    whatever the registry holds. *)
Theorem Device_of_group_address (g : GroupAddress.t) (n : Network) :
  Address_IsGroup (MulticastAddress g) = true ∧
  Device (MulticastAddress g) n = (Device.zero, false).
Proof. split; reflexivity. Qed.

(** The group address 1/"1" renders like the address of the bulb, which is
    stored, and is still not found. *)
Example Device_of_group_address_collision :
  let g := GroupAddress.Build 1 "1" in
  devices bulb_only !! Address_String (MulticastAddress g) = Some bulb ∧
  Device (MulticastAddress g) bulb_only = (Device.zero, false) ∧
  Device (UnicastAddress (DeviceAddress.Build 1 1)) bulb_only = (bulb, true).
Proof. repeat split; vm_compute; reflexivity. Qed.

(** C6: [AddGroup] and [UpdateGroup] leave the same state: the address is
    stored under its group id and nothing else changes. *)
Theorem AddGroup_UpdateGroup_same (a : GroupAddress.t) (n : Network) :
  AddGroup a n = UpdateGroup a n ∧
  AddGroup a n =
    MkNetwork (devices n) (<[GroupAddress.GroupID a := a]> (groups n))
      (listeners n) (reset n) (filePath n).
Proof. split; reflexivity. Qed.

(** C7: [RemoveDevice d] deletes the entry under [d]'s network-address
    string whatever device is stored there, and calls [DeviceRemoved d] on
    every registered listener, whether or not there was an entry. *)
Theorem RemoveDevice_deletes_and_notifies (d : Device.t) (n : Network) :
  let n' := (RemoveDevice d n).1 in
  let calls := (RemoveDevice d n).2 in
  devices n' = delete (Device.key d) (devices n) ∧
  devices n' !! Device.key d = None ∧
  groups n' = groups n ∧ listeners n' = listeners n ∧
  callee <$> calls = listeners n ∧
  Forall (λ c, method c = DeviceRemoved d ∧ devices_at_call c = devices n') calls.
Proof.
  intros n' calls. split; [done|]. split; [apply lookup_delete_eq|].
  split; [done|]. split; [done|]. split.
  - unfold calls, RemoveDevice, notify. simpl.
    rewrite <- list_fmap_compose. apply list_fmap_id.
  - apply Forall_forall. intros c Hc.
    unfold calls, RemoveDevice, notify in Hc. simpl in Hc.
    apply list_elem_of_fmap in Hc as [l [-> _]]. done.
Qed.

(** Removing the lamp, which is not stored, deletes the bulb stored at the
    same address; removing the plug from a registry without it still
    notifies the listener. *)
Example RemoveDevice_examples :
  Devices (RemoveDevice lamp bulb_only).1 = [] ∧
  (RemoveDevice plug (AddNetworkListener 4%nat bulb_only)).2
    = [MkCall 4%nat (DeviceRemoved plug) (devices bulb_only)].
Proof. split; vm_compute; reflexivity. Qed.

(** C8 as stated fails: with the reset flag clear and the state file
    there (it holds the plug and can be read), a refused [os.Stat] makes
    [Startup] return success without reading the file; the registry is
    what it was, not the merge of the file into it, and no error is
    returned. *)
Lemma Startup_skips_file_when_Stat_fails :
  let rt := unstatable_runtime sample_files in
  reset bulb_only = false ∧
  sample_files !! filePath bulb_only = Some (Ok plug_document) ∧
  @ioutil_ReadFile rt (filePath bulb_only) = Ok plug_document ∧
  @json_Unmarshal rt plug_document = Ok (serializedNetwork.Build [plug] []) ∧
  @os_Stat rt (filePath bulb_only)
    = Some (Wrapf ErrPermission "stat simple-network.json") ∧
  @Startup rt bulb_only = (bulb_only, None) ∧
  plug ∈ Devices (@UnmarshalJSON rt plug_document bulb_only).1 ∧
  plug ∉ Devices (@Startup rt bulb_only).1.
Proof.
  intros rt.
  split; [reflexivity|]. split; [vm_compute; reflexivity|].
  split; [vm_compute; reflexivity|]. split; [vm_compute; reflexivity|].
  split; [reflexivity|]. split; [vm_compute; reflexivity|]. split.
  - vm_compute. right. by left.
  - vm_compute. intros Hin.
    apply elem_of_cons in Hin as [Hin|Hin]; [discriminate|].
    by apply elem_of_nil in Hin.
Qed.

(** C8, amended: [Startup] changes nothing and succeeds when the reset flag
    is set or [os.Stat] on the state file returns an error, whether the
    file does not exist or [os.Stat] fails for another reason.  Otherwise
    it reads the file: a read failure and a decode failure are returned,
    wrapped, with the registry as it was; a document that decodes is merged
    into the registry by [UnmarshalJSON]. *)
Theorem Startup_spec `{rt : Runtime} (n : Network) :
  (reset n = true ∨ os_Stat (filePath n) ≠ None → Startup n = (n, None)) ∧
  (reset n = false → os_Stat (filePath n) = None →
   (∀ e, ioutil_ReadFile (filePath n) = Err e →
      Startup n =
        (n, Some (Wrapf e ("Unable to read content of file " +:+ filePath n)))) ∧
   (∀ data e, ioutil_ReadFile (filePath n) = Ok data →
      json_Unmarshal data = Err e →
      Startup n =
        (n, Some (Wrapf e
           ("Unable to unmarshal network state from file " +:+ filePath n)))) ∧
   (∀ data state, ioutil_ReadFile (filePath n) = Ok data →
      json_Unmarshal data = Ok state →
      Startup n = ((UnmarshalJSON data n).1, None) ∧
      devices (Startup n).1 =
        upsert_all Device.key (devices n) (serializedNetwork.Devices state) ∧
      groups (Startup n).1 =
        upsert_all GroupAddress.GroupID (groups n)
          (serializedNetwork.Groups state))).
Proof.
  split.
  - intros Hskip. unfold Startup.
    destruct Hskip as [-> | Hstat]; [done|].
    rewrite bool_decide_eq_false_2 by done. by rewrite andb_false_r.
  - intros Hreset Hstat. unfold Startup, json_Unmarshal_Network.
    rewrite Hreset, Hstat. simpl. split; [|split].
    + intros e ->. done.
    + intros data e -> Hdec. by rewrite (UnmarshalJSON_Err _ _ _ Hdec).
    + intros data state -> Hdec. by rewrite (UnmarshalJSON_Ok _ _ _ Hdec).
Qed.

Lemma Startup_spec_witness :
  reset bulb_only = false ∧
  @os_Stat sample_runtime (filePath bulb_only) = None ∧
  @ioutil_ReadFile sample_runtime (filePath bulb_only) = Ok plug_document ∧
  @json_Unmarshal sample_runtime plug_document
    = Ok (serializedNetwork.Build [plug] []) ∧
  @Startup sample_runtime bulb_only
    = ((@UnmarshalJSON sample_runtime plug_document bulb_only).1, None).
Proof.
  split; [reflexivity|]. split; [reflexivity|]. split; [reflexivity|].
  split; [vm_compute; reflexivity|].
  refine (proj1 (proj2 (proj2 (proj2 (@Startup_spec sample_runtime bulb_only)
    _ _)) plug_document (serializedNetwork.Build [plug] []) _ _)).
  - reflexivity.
  - reflexivity.
  - reflexivity.
  - vm_compute; reflexivity.
Defined.

(** The same start with the reset flag set, and with no state file. *)
Example Startup_examples :
  @Startup sample_runtime (NewNetworkState true) = (NewNetworkState true, None) ∧
  @Startup (table_runtime [] ∅) bulb_only = (bulb_only, None) ∧
  Devices (@Startup sample_runtime bulb_only).1 = [bulb; plug].
Proof. repeat split; vm_compute; reflexivity. Qed.

(** C9: when the document does not decode, [UnmarshalJSON] returns the
    decoder's error and the registry, its devices map and its groups map
    included, is what it was. *)
Theorem UnmarshalJSON_failure_changes_nothing `{rt : Runtime}
    (data : string) (e : error) (n : Network) :
  json_Unmarshal data = Err e →
  UnmarshalJSON data n = (n, Some e) ∧
  devices (UnmarshalJSON data n).1 = devices n ∧
  groups (UnmarshalJSON data n).1 = groups n.
Proof.
  intros Hdec. by rewrite (UnmarshalJSON_Err _ _ _ Hdec).
Qed.

Lemma UnmarshalJSON_failure_changes_nothing_witness :
  @json_Unmarshal sample_runtime "{" = Err (ErrorString "invalid character") ∧
  @UnmarshalJSON sample_runtime "{" home
    = (home, Some (ErrorString "invalid character")).
Proof.
  split; [vm_compute; reflexivity|].
  refine (proj1 (@UnmarshalJSON_failure_changes_nothing sample_runtime
    "{" (ErrorString "invalid character") home _)).
  vm_compute; reflexivity.
Defined.

(** * Further properties of the package *)

(** ** Addresses *)

(** X1: [GroupAddress.String] is injective: the group id ends at the first
    ['/'], whatever the label contains, so equal renderings come from equal
    group addresses. *)
Theorem GroupAddress_String_inj (a b : GroupAddress.t) :
  GroupAddress.String a = GroupAddress.String b → a = b.
Proof.
  unfold GroupAddress.String. intros Heq.
  apply split_at_first_slash in Heq; try apply fmt_d_slash_free.
  destruct Heq as [Hid Hlabel]. apply fmt_d_inj in Hid.
  destruct a, b; simpl in *. by subst.
Qed.

Lemma GroupAddress_String_inj_witness :
  GroupAddress.String (GroupAddress.Build 7 "a/b") = "7/a/b" ∧
  GroupAddress.Build 7 "a/b" = GroupAddress.Build 7 "a/b".
Proof.
  split; [vm_compute; reflexivity|].
  apply (GroupAddress_String_inj (GroupAddress.Build 7 "a/b")
           (GroupAddress.Build 7 "a/b")).
  reflexivity.
Defined.

(** X2: a device address and a group address render alike exactly when the
    group id is the network address and the label is the decimal endpoint;
    so the rendering alone does not tell the two kinds of address apart. *)
Theorem Address_String_collision (a : DeviceAddress.t) (g : GroupAddress.t) :
  Address_String (UnicastAddress a) = Address_String (MulticastAddress g) ↔
  GroupAddress.GroupID g = DeviceAddress.NetworkAddress a ∧
  GroupAddress.Label g = fmt_d (DeviceAddress.Endpoint a).
Proof.
  simpl. unfold DeviceAddress.String, GroupAddress.String. split.
  - intros Heq. apply split_at_first_slash in Heq; try apply fmt_d_slash_free.
    destruct Heq as [Hid Hlabel]. apply fmt_d_inj in Hid. by split.
  - intros [-> ->]. done.
Qed.

(** ** Groups *)

Lemma Group_lookup id n :
  Group id n =
    match groups n !! id with
    | Some a => (a, true)
    | None => (GroupAddress.Build 0 EmptyString, false)
    end.
Proof. done. Qed.

Lemma Network_eq (n1 n2 : Network) :
  devices n1 = devices n2 → groups n1 = groups n2 →
  listeners n1 = listeners n2 → reset n1 = reset n2 →
  filePath n1 = filePath n2 → n1 = n2.
Proof. destruct n1, n2; simpl. by intros -> -> -> -> ->. Qed.

Section group_calls.
Context `{rt : Runtime}.

Lemma lookup_after_group_calls cs : ∀ n id,
  groups (run (GroupCall_op <$> cs) n) !! id =
    match latest_group_call id cs with
    | Some entry => entry
    | None => groups n !! id
    end.
Proof.
  induction cs as [|c cs IH]; intros n id; [done|].
  rewrite fmap_cons, run_cons, IH. simpl.
  destruct (latest_group_call id cs) as [entry|]; [done|].
  destruct c as [a|a|a]; simpl.
  - rewrite lookup_insert. by case_decide.
  - rewrite lookup_insert. by case_decide.
  - rewrite lookup_delete. by case_decide.
Qed.

End group_calls.

(** X3: after any sequence of [AddGroup], [UpdateGroup] and [RemoveGroup]
    calls on a registry with any history, [Group id] returns the address of
    the latest call on [id] if that was an add or update, the zero address
    and [false] if it was a removal, and what it returned before if no call
    was on [id]. *)
Theorem Group_after_group_calls `{rt : Runtime}
    (r : bool) (history : list Op) (cs : list GroupCall) (id : N) :
  let before := run history (NewNetworkState r) in
  let n := run (GroupCall_op <$> cs) before in
  Group id n =
    match latest_group_call id cs with
    | Some (Some a) => (a, true)
    | Some None => (GroupAddress.Build 0 EmptyString, false)
    | None => Group id before
    end.
Proof.
  intros before n. rewrite !Group_lookup. unfold n.
  rewrite lookup_after_group_calls.
  by destruct (latest_group_call id cs) as [[a|]|].
Qed.

(** X4: [RemoveGroup] on a group id that is not stored leaves the registry
    as it is. *)
Theorem RemoveGroup_absent (a : GroupAddress.t) (n : Network) :
  Group (GroupAddress.GroupID a) n = (GroupAddress.Build 0 EmptyString, false) →
  RemoveGroup a n = n.
Proof.
  rewrite Group_lookup. intros Hnone.
  destruct (groups n !! GroupAddress.GroupID a) eqn:E; [done|].
  apply Network_eq; try done. simpl. by apply delete_id.
Qed.

Lemma RemoveGroup_absent_witness :
  Group 7 bulb_only = (GroupAddress.Build 0 EmptyString, false) ∧
  RemoveGroup kitchen bulb_only = bulb_only.
Proof.
  split; [vm_compute; reflexivity|].
  apply (RemoveGroup_absent kitchen bulb_only). vm_compute; reflexivity.
Defined.

(** X5: [RemoveGroup] deletes by group id alone, and undoes an [AddGroup]
    or [UpdateGroup] of a group id that was not stored before: the registry
    is again what it was, whatever the labels of the two addresses. *)
Theorem RemoveGroup_undoes_AddGroup (a a' : GroupAddress.t) (n : Network) :
  GroupAddress.GroupID a' = GroupAddress.GroupID a →
  groups n !! GroupAddress.GroupID a = None →
  RemoveGroup a' (AddGroup a n) = n ∧ RemoveGroup a' (UpdateGroup a n) = n.
Proof.
  intros Hid Hnone.
  assert (E : RemoveGroup a' (AddGroup a n) = n).
  { apply Network_eq; try done. simpl. rewrite Hid.
    rewrite delete_insert_eq. by apply delete_id. }
  by split.
Qed.

Lemma RemoveGroup_undoes_AddGroup_witness :
  GroupAddress.GroupID (GroupAddress.Build 7 "pantry") = GroupAddress.GroupID kitchen ∧
  groups bulb_only !! GroupAddress.GroupID kitchen = None ∧
  RemoveGroup (GroupAddress.Build 7 "pantry") (AddGroup kitchen bulb_only) = bulb_only.
Proof.
  split; [reflexivity|]. split; [vm_compute; reflexivity|].
  refine (proj1 (RemoveGroup_undoes_AddGroup kitchen
    (GroupAddress.Build 7 "pantry") bulb_only _ _)).
  - reflexivity.
  - vm_compute; reflexivity.
Defined.

(** X6: on a registry with any history, [Groups] lists no group id twice,
    and a group address is listed exactly when [Group] on its id returns
    it. *)
Theorem Groups_agree_with_Group `{rt : Runtime} (r : bool) (history : list Op) :
  let n := run history (NewNetworkState r) in
  NoDup (GroupAddress.GroupID <$> Groups n) ∧
  ∀ g, g ∈ Groups n ↔ Group (GroupAddress.GroupID g) n = (g, true).
Proof.
  intros n. pose proof (consistent_history r history) as Hn. fold n in Hn.
  split; [apply keys_of_values_NoDup, Hn|].
  intros g. rewrite elem_of_Groups_keyed by done. rewrite Group_lookup.
  destruct (groups n !! GroupAddress.GroupID g) as [g'|]; split; congruence.
Qed.

(** ** Devices *)

Lemma Device_lookup (a : DeviceAddress.t) n :
  Device (UnicastAddress a) n =
    match devices n !! DeviceAddress.String a with
    | Some d => (d, true)
    | None => (Device.zero, false)
    end.
Proof. done. Qed.

Lemma Device_key_eq (a : DeviceAddress.t) (d : Device.t) :
  DeviceAddress.String a = Device.key d ↔ a = Device.NetworkAddress d.
Proof. apply DeviceAddress_String_eq. Qed.

(** X7: after [AddDevice d] or [UpdateDevice d], looking up the network
    address of [d] returns [d], and looking up any other device address
    returns what it returned before. *)
Theorem Device_after_upsert (d : Device.t) (n : Network) (a : DeviceAddress.t) :
  Device (UnicastAddress a) (AddDevice d n).1 =
    (if decide (a = Device.NetworkAddress d) then (d, true)
     else Device (UnicastAddress a) n) ∧
  Device (UnicastAddress a) (UpdateDevice d n).1 =
    (if decide (a = Device.NetworkAddress d) then (d, true)
     else Device (UnicastAddress a) n).
Proof.
  assert (E : Device (UnicastAddress a) (AddDevice d n).1 =
    (if decide (a = Device.NetworkAddress d) then (d, true)
     else Device (UnicastAddress a) n)).
  { rewrite !Device_lookup. simpl. rewrite lookup_insert.
    destruct (decide (a = Device.NetworkAddress d)) as [->|Hne].
    - by rewrite decide_True.
    - rewrite decide_False; [done|]. intros Hk. symmetry in Hk.
      by apply Device_key_eq in Hk. }
  by split.
Qed.

(** X8: after [RemoveDevice d], looking up the network address of [d]
    returns the zero device and [false], and looking up any other device
    address returns what it returned before. *)
Theorem Device_after_RemoveDevice (d : Device.t) (n : Network) (a : DeviceAddress.t) :
  Device (UnicastAddress a) (RemoveDevice d n).1 =
    (if decide (a = Device.NetworkAddress d) then (Device.zero, false)
     else Device (UnicastAddress a) n).
Proof.
  rewrite !Device_lookup. simpl. rewrite lookup_delete.
  destruct (decide (a = Device.NetworkAddress d)) as [->|Hne].
  - by rewrite decide_True.
  - rewrite decide_False; [done|]. intros Hk. symmetry in Hk.
    by apply Device_key_eq in Hk.
Qed.

(** X9: [UpdateDevice d] leaves the state [AddDevice d] leaves, and calls
    [DeviceUpdated d], not [DeviceAdded d], once on every listener of the
    list, in list order, with [d] already stored; this whether or not an
    entry was there to update. *)
Theorem UpdateDevice_upserts_and_notifies (d : Device.t) (n : Network) :
  let n' := (UpdateDevice d n).1 in
  let calls := (UpdateDevice d n).2 in
  n' = (AddDevice d n).1 ∧
  devices n' !! Device.key d = Some d ∧
  callee <$> calls = listeners n ∧
  Forall (λ c, method c = DeviceUpdated d ∧ devices_at_call c = devices n') calls.
Proof.
  intros n' calls. split; [done|]. split; [apply lookup_insert_eq|]. split.
  - unfold calls, UpdateDevice, notify. simpl.
    rewrite <- list_fmap_compose. apply list_fmap_id.
  - apply Forall_forall. intros c Hc.
    unfold calls, UpdateDevice, notify in Hc. simpl in Hc.
    apply list_elem_of_fmap in Hc as [l [-> _]]. done.
Qed.

(** X10: on a registry with any history, [Devices] lists no network
    address (network address and endpoint) twice, and a device is listed
    exactly when [Device] on its own network address returns it. *)
Theorem Devices_agree_with_Device `{rt : Runtime} (r : bool) (history : list Op) :
  let n := run history (NewNetworkState r) in
  NoDup (Device.NetworkAddress <$> Devices n) ∧
  ∀ d, d ∈ Devices n ↔
       Device (UnicastAddress (Device.NetworkAddress d)) n = (d, true).
Proof.
  intros n. pose proof (consistent_history r history) as Hn. fold n in Hn.
  split.
  - assert (Hk : NoDup (Device.key <$> Devices n)).
    { apply keys_of_values_NoDup, Hn. }
    unfold Device.key in Hk.
    change (λ device, DeviceAddress.String (Device.NetworkAddress device))
      with (DeviceAddress.String ∘ Device.NetworkAddress) in Hk.
    rewrite list_fmap_compose in Hk. by apply NoDup_fmap_1 in Hk.
  - intros d. rewrite elem_of_Devices_keyed by done. rewrite Device_lookup.
    fold (Device.key d).
    destruct (devices n !! Device.key d) as [d'|]; split; congruence.
Qed.

(** X11: [AddDevice] makes [Devices] one longer when no device was stored
    under the network-address string, and leaves its length when one was
    (the old device is replaced). *)
Theorem Devices_length_after_AddDevice (d : Device.t) (n : Network) :
  length (Devices (AddDevice d n).1) =
    match devices n !! Device.key d with
    | Some _ => length (Devices n)
    | None => S (length (Devices n))
    end.
Proof.
  unfold Devices. rewrite !length_fmap, !length_map_to_list. simpl.
  destruct (devices n !! Device.key d) as [d'|] eqn:E.
  - by apply map_size_insert_Some.
  - by apply map_size_insert_None.
Qed.

(** X12: [RemoveDevice] undoes an [AddDevice] or [UpdateDevice] at a
    network address that was not stored before, whatever the other fields
    of the device passed to it: the registry is again what it was. *)
Theorem RemoveDevice_undoes_AddDevice (d d' : Device.t) (n : Network) :
  Device.NetworkAddress d' = Device.NetworkAddress d →
  Device (UnicastAddress (Device.NetworkAddress d)) n = (Device.zero, false) →
  (RemoveDevice d' (AddDevice d n).1).1 = n ∧
  (RemoveDevice d' (UpdateDevice d n).1).1 = n.
Proof.
  intros Haddr Hnone. rewrite Device_lookup in Hnone. fold (Device.key d) in Hnone.
  destruct (devices n !! Device.key d) eqn:E; [done|].
  assert (Hk : Device.key d' = Device.key d).
  { unfold Device.key. by rewrite Haddr. }
  assert (Eq : (RemoveDevice d' (AddDevice d n).1).1 = n).
  { apply Network_eq; try done. simpl. rewrite Hk.
    rewrite delete_insert_eq. by apply delete_id. }
  by split.
Qed.

Lemma RemoveDevice_undoes_AddDevice_witness :
  Device.NetworkAddress lamp = Device.NetworkAddress bulb ∧
  Device (UnicastAddress (Device.NetworkAddress bulb)) plug_only
    = (Device.zero, false) ∧
  (RemoveDevice lamp (AddDevice bulb plug_only).1).1 = plug_only.
Proof.
  split; [reflexivity|]. split; [vm_compute; reflexivity|].
  refine (proj1 (RemoveDevice_undoes_AddDevice bulb lamp plug_only _ _)).
  - reflexivity.
  - vm_compute; reflexivity.
Defined.

(** ** Listeners, registration and removal *)

Lemma index_of_first l pre post :
  l ∉ pre → index_of l (pre ++ l :: post) = Some (length pre).
Proof.
  induction pre as [|x pre IH]; simpl.
  - intros _. by rewrite decide_True.
  - rewrite not_elem_of_cons. intros [Hne Hout].
    rewrite decide_False by done. by rewrite IH.
Qed.

Lemma index_of_Some_split l ls i :
  index_of l ls = Some i →
  ∃ pre post, ls = pre ++ l :: post ∧ (l ∉ pre) ∧ length pre = i.
Proof.
  revert i. induction ls as [|x ls IH]; intros i; simpl; [done|].
  case_decide as Hx.
  - intros [= <-]. subst x. exists [], ls. split; [done|]. split; [apply not_elem_of_nil | done].
  - destruct (index_of l ls) as [j|] eqn:E; simpl; [|done].
    intros [= <-]. destruct (IH j eq_refl) as (pre & post & -> & Hout & Hlen).
    exists (x :: pre), post. split; [done|]. split.
    + apply not_elem_of_cons. split; [congruence | done].
    + simpl. by rewrite Hlen.
Qed.

Lemma RemoveNetworkListener_last l pre n :
  listeners n = pre ++ [l] → l ∉ pre →
  listeners (RemoveNetworkListener l n) = pre.
Proof.
  intros Hls Hout. unfold RemoveNetworkListener. rewrite Hls.
  rewrite index_of_first by done. rewrite last_snoc. simpl.
  rewrite insert_app_r_alt by done. rewrite Nat.sub_diag. simpl.
  apply take_app_length'. rewrite length_app. simpl. lia.
Qed.

Lemma RemoveNetworkListener_middle l pre post f n :
  listeners n = pre ++ l :: post ++ [f] → l ∉ pre →
  listeners (RemoveNetworkListener l n) = pre ++ f :: post.
Proof.
  intros Hls Hout. unfold RemoveNetworkListener. rewrite Hls.
  rewrite index_of_first by done.
  assert (Hlast : last (pre ++ l :: post ++ [f]) = Some f).
  { replace (pre ++ l :: post ++ [f]) with ((pre ++ l :: post) ++ [f])
      by (by rewrite <- app_assoc).
    apply last_snoc. }
  rewrite Hlast. simpl.
  rewrite insert_app_r_alt by done. rewrite Nat.sub_diag. simpl.
  replace (pre ++ f :: post ++ [f]) with ((pre ++ f :: post) ++ [f])
    by (by rewrite <- app_assoc).
  apply take_app_length'. rewrite !length_app. simpl. rewrite length_app. simpl. lia.
Qed.

(** A listener that is found is the last one or has a last one after it. *)
Lemma found_shapes (l : NetworkListener) ls i :
  index_of l ls = Some i →
  ∃ pre, (l ∉ pre) ∧
    (ls = pre ++ [l] ∨ ∃ post f, ls = pre ++ l :: post ++ [f]).
Proof.
  intros Hi. apply index_of_Some_split in Hi as (pre & post & -> & Hout & _).
  exists pre. split; [done|].
  destruct post as [|x post] using rev_ind; [by left|].
  right. by exists post, x.
Qed.

Lemma swap_remove_Permutation (l f : NetworkListener) pre post :
  pre ++ l :: post ++ [f] ≡ₚ l :: (pre ++ f :: post).
Proof.
  rewrite <- Permutation_middle. constructor.
  apply Permutation_app_head. symmetry. apply Permutation_cons_append.
Qed.

Lemma RemoveNetworkListener_absent l n :
  l ∉ listeners n → RemoveNetworkListener l n = n.
Proof.
  intros Hout. apply index_of_None in Hout.
  unfold RemoveNetworkListener. by rewrite Hout.
Qed.

Lemma RemoveNetworkListener_Permutation l n :
  l ∈ listeners n →
  listeners n ≡ₚ l :: listeners (RemoveNetworkListener l n).
Proof.
  intros Hin. destruct (index_of l (listeners n)) as [i|] eqn:Hi.
  - apply found_shapes in Hi as (pre & Hout & [Hls|(post & f & Hls)]).
    + rewrite (RemoveNetworkListener_last l pre n Hls Hout), Hls.
      symmetry. apply Permutation_cons_append.
    + rewrite (RemoveNetworkListener_middle l pre post f n Hls Hout), Hls.
      apply swap_remove_Permutation.
  - apply index_of_None in Hi. done.
Qed.

Lemma RemoveNetworkListener_NoDup l n :
  NoDup (listeners n) → NoDup (listeners (RemoveNetworkListener l n)).
Proof.
  intros Hnd. destruct (decide (l ∈ listeners n)) as [Hin|Hout].
  - rewrite (RemoveNetworkListener_Permutation l n Hin) in Hnd.
    by apply NoDup_cons in Hnd as [_ Hnd].
  - by rewrite RemoveNetworkListener_absent.
Qed.

Lemma RemoveNetworkListener_elem_of l n l' :
  NoDup (listeners n) →
  l' ∈ listeners (RemoveNetworkListener l n) ↔ l' ∈ listeners n ∧ l' ≠ l.
Proof.
  intros Hnd. destruct (decide (l ∈ listeners n)) as [Hin|Hout].
  - pose proof (RemoveNetworkListener_Permutation l n Hin) as Hp.
    rewrite Hp in Hnd. apply NoDup_cons in Hnd as [Hl _].
    rewrite Hp, elem_of_cons. split.
    + intros Hl'. split; [by right | congruence].
    + intros [[->|Hl'] Hne]; done.
  - rewrite RemoveNetworkListener_absent by done. split; [|by intros [? _]].
    intros Hl'. split; [done | congruence].
Qed.

Section more_listeners.
Context `{rt : Runtime}.

Lemma listeners_NoDup_exec op n :
  NoDup (listeners n) → NoDup (listeners (exec op n).1).
Proof.
  intros Hnd. rewrite exec_listeners. destruct op; try done.
  - rewrite AddNetworkListener_listeners. case_decide; [done|].
    apply NoDup_app. split; [done|]. split.
    + intros x Hx Hx'. apply list_elem_of_singleton in Hx'. by subst.
    + apply NoDup_singleton.
  - by apply RemoveNetworkListener_NoDup.
Qed.

Lemma listeners_NoDup_run ops : ∀ n,
  NoDup (listeners n) → NoDup (listeners (run ops n)).
Proof.
  induction ops as [|op ops IH]; intros n Hn; [done|].
  rewrite run_cons. by apply IH, listeners_NoDup_exec.
Qed.

End more_listeners.

(** X13: [AddNetworkListener] puts a new listener at the end of the list
    and keeps the others in place; registering a listener that is already
    registered changes nothing, so registering twice is registering once. *)
Theorem AddNetworkListener_idempotent (l : NetworkListener) (n : Network) :
  AddNetworkListener l (AddNetworkListener l n) = AddNetworkListener l n ∧
  listeners (AddNetworkListener l n) =
    (if decide (l ∈ listeners n) then listeners n else listeners n ++ [l]) ∧
  devices (AddNetworkListener l n) = devices n ∧
  groups (AddNetworkListener l n) = groups n.
Proof.
  split; [|split; [apply AddNetworkListener_listeners|]].
  - unfold AddNetworkListener at 2 3.
    destruct (index_of l (listeners n)) as [i|] eqn:Hi.
    + unfold AddNetworkListener. by rewrite Hi.
    + apply index_of_None in Hi. unfold AddNetworkListener. simpl.
      by rewrite index_of_first.
  - unfold AddNetworkListener. by destruct (index_of l (listeners n)).
Qed.

(** X14: on a registry with any history of calls, removals included, no
    listener is in the listener list twice. *)
Theorem listeners_never_duplicated `{rt : Runtime} (r : bool) (history : list Op) :
  NoDup (listeners (run history (NewNetworkState r))).
Proof. apply listeners_NoDup_run. constructor. Qed.

(** X15: [RemoveNetworkListener] takes out the first occurrence of the
    listener by moving the last listener of the list into its slot: the
    listeners before it keep their order, the last one jumps ahead of those
    that followed it.  A listener that is not registered is ignored.  The
    devices and groups are never touched. *)
Theorem RemoveNetworkListener_swaps_with_last (l : NetworkListener) (n : Network) :
  (l ∉ listeners n → RemoveNetworkListener l n = n) ∧
  (∀ pre, listeners n = pre ++ [l] → l ∉ pre →
     listeners (RemoveNetworkListener l n) = pre) ∧
  (∀ pre post f, listeners n = pre ++ l :: post ++ [f] → l ∉ pre →
     listeners (RemoveNetworkListener l n) = pre ++ f :: post) ∧
  devices (RemoveNetworkListener l n) = devices n ∧
  groups (RemoveNetworkListener l n) = groups n.
Proof.
  split; [apply RemoveNetworkListener_absent|].
  split; [intros pre; apply RemoveNetworkListener_last|].
  split; [intros pre post f; apply RemoveNetworkListener_middle|].
  unfold RemoveNetworkListener.
  by destruct (index_of l (listeners n)), (last (listeners n)).
Qed.

Example RemoveNetworkListener_order :
  listeners (RemoveNetworkListener 2%nat
    (with_listeners [1; 2; 3; 4]%nat (NewNetworkState false))) = [1; 4; 3]%nat.
Proof. reflexivity. Qed.

(** X16: on a registry with any history, once a listener is removed a
    following [AddDevice], [UpdateDevice] or [RemoveDevice] does not call
    it, and calls each of the other registered listeners exactly once. *)
Theorem removed_listener_not_notified `{rt : Runtime}
    (r : bool) (history : list Op) (l : NetworkListener) (d : Device.t) :
  let n := run history (NewNetworkState r) in
  let n' := RemoveNetworkListener l n in
  let others_once (calls : list Call) :=
    NoDup (callee <$> calls) ∧
    ∀ l', l' ∈ callee <$> calls ↔ l' ∈ listeners n ∧ l' ≠ l in
  others_once (AddDevice d n').2 ∧
  others_once (UpdateDevice d n').2 ∧
  others_once (RemoveDevice d n').2.
Proof.
  intros n n' others_once.
  assert (Hnd : NoDup (listeners n)) by (apply listeners_NoDup_run; constructor).
  assert (Hall : ∀ calls, callee <$> calls = listeners n' → others_once calls).
  { intros calls E. unfold others_once. rewrite E. split.
    - by apply RemoveNetworkListener_NoDup.
    - intros l'. by apply RemoveNetworkListener_elem_of. }
  split; [|split]; apply Hall; simpl; unfold notify;
    rewrite <- list_fmap_compose; apply list_fmap_id.
Qed.

(** ** Persistence, continued *)

Section stored_twice.
Context {K V : Type} `{Countable K} (key : V → K).

(** Under a key of the list, the outcome does not depend on the map the
    list is stored into. *)
Lemma upsert_all_base l : ∀ (m m' : gmap K V) k,
  k ∈ key <$> l → upsert_all key m l !! k = upsert_all key m' l !! k.
Proof.
  induction l as [|x l IH]; intros m m' k Hk; [by apply elem_of_nil in Hk|].
  unfold upsert_all. simpl. fold (upsert_all key (<[key x:=x]> m) l).
  fold (upsert_all key (<[key x:=x]> m') l).
  destruct (decide (k ∈ key <$> l)) as [Hin|Hout]; [by apply IH|].
  rewrite !upsert_all_absent by done.
  rewrite fmap_cons in Hk. apply elem_of_cons in Hk as [->|Hk]; [|done].
  by rewrite !lookup_insert_eq.
Qed.

Lemma upsert_all_twice l (m : gmap K V) :
  upsert_all key (upsert_all key m l) l = upsert_all key m l.
Proof.
  apply map_eq. intros k.
  destruct (decide (k ∈ key <$> l)) as [Hin|Hout].
  - by apply upsert_all_base.
  - by rewrite upsert_all_absent.
Qed.

End stored_twice.

Section persistence_more.
Context `{rt : Runtime}.

Lemma UnmarshalJSON_twice data n :
  UnmarshalJSON data (UnmarshalJSON data n).1 = UnmarshalJSON data n.
Proof.
  destruct (json_Unmarshal data) as [state|e] eqn:E.
  - rewrite !(UnmarshalJSON_Ok _ _ _ E). simpl. by rewrite !upsert_all_twice.
  - by rewrite !(UnmarshalJSON_Err _ _ _ E).
Qed.

Lemma UnmarshalJSON_frame data n :
  listeners (UnmarshalJSON data n).1 = listeners n ∧
  reset (UnmarshalJSON data n).1 = reset n ∧
  filePath (UnmarshalJSON data n).1 = filePath n.
Proof.
  destruct (json_Unmarshal data) as [state|e] eqn:E.
  - by rewrite !(UnmarshalJSON_Ok _ _ _ E).
  - by rewrite !(UnmarshalJSON_Err _ _ _ E).
Qed.

Lemma exec_frame op n :
  reset (exec op n).1 = reset n ∧ filePath (exec op n).1 = filePath n.
Proof.
  destruct op; simpl; try done.
  - unfold AddNetworkListener. by destruct (index_of _ _).
  - unfold RemoveNetworkListener.
    by destruct (index_of _ _), (last (listeners n)).
  - apply UnmarshalJSON_frame.
  - destruct (Startup_state n) as [->|[data ->]]; [done|].
    apply UnmarshalJSON_frame.
Qed.

Lemma run_frame ops : ∀ n,
  reset (run ops n) = reset n ∧ filePath (run ops n) = filePath n.
Proof.
  induction ops as [|op ops IH]; intros n; [done|].
  rewrite run_cons. destruct (IH (exec op n).1) as [-> ->]. apply exec_frame.
Qed.

End persistence_more.

(** X17: deserializing the same document twice is deserializing it once:
    the second [UnmarshalJSON] returns the same result and leaves the
    registry as the first left it. *)
Theorem UnmarshalJSON_idempotent `{rt : Runtime} (data : string) (n : Network) :
  UnmarshalJSON data (UnmarshalJSON data n).1 = UnmarshalJSON data n.
Proof. apply UnmarshalJSON_twice. Qed.

(** X18: [Startup] run a second time returns what it returned the first
    time and leaves the registry as the first run left it. *)
Theorem Startup_idempotent `{rt : Runtime} (n : Network) :
  Startup (Startup n).1 = Startup n.
Proof.
  unfold Startup at 2 3. unfold json_Unmarshal_Network.
  destruct (negb (reset n) && bool_decide (os_Stat (filePath n) = None)) eqn:Hgo.
  - destruct (ioutil_ReadFile (filePath n)) as [data|e] eqn:Hread.
    + destruct (UnmarshalJSON data n) as [n1 o] eqn:Hu.
      pose proof (UnmarshalJSON_frame data n) as (_ & Hr & Hp).
      pose proof (UnmarshalJSON_twice data n) as Htw.
      rewrite Hu in Hr, Hp, Htw. simpl in *.
      assert (E : Startup n1 = match o with
        | Some err => (n1, Some (Wrapf err
            ("Unable to unmarshal network state from file " +:+ filePath n)))
        | None => (n1, None) end).
      { unfold Startup, json_Unmarshal_Network.
        rewrite Hr, Hp, Hgo, Hread, Htw. by destruct o. }
      destruct o; simpl; by rewrite E.
    + simpl. unfold Startup. by rewrite Hgo, Hread.
  - simpl. unfold Startup. by rewrite Hgo.
Qed.

(** X19: no call changes the reset flag or the path of the state file: on
    a registry with any history the flag is the one given to
    [NewNetworkState] and the path is "simple-network.json". *)
Theorem reset_and_filePath_fixed `{rt : Runtime} (r : bool) (history : list Op) :
  reset (run history (NewNetworkState r)) = r ∧
  filePath (run history (NewNetworkState r)) = "simple-network.json".
Proof. apply (run_frame history (NewNetworkState r)). Qed.

(** X20: what [UnmarshalJSON] leaves in the devices map.  On a registry
    with any history and a document whose devices carry pairwise different
    network-address strings, the devices afterwards are those of the
    document together with the earlier ones whose string no device of the
    document has: an earlier device at the string of a document device is
    replaced. *)
Theorem UnmarshalJSON_devices_result `{rt : Runtime}
    (r : bool) (history : list Op) (data : string) (state : serializedNetwork.t) :
  let n := run history (NewNetworkState r) in
  json_Unmarshal data = Ok state →
  (∀ x y, x ∈ serializedNetwork.Devices state →
          y ∈ serializedNetwork.Devices state →
          Device.key x = Device.key y → x = y) →
  ∀ d, d ∈ Devices (UnmarshalJSON data n).1 ↔
       d ∈ serializedNetwork.Devices state ∨
       (d ∈ Devices n ∧
        Device.key d ∉ Device.key <$> serializedNetwork.Devices state).
Proof.
  intros n Hdec Hfun d.
  pose proof (consistent_history r history) as Hn. fold n in Hn.
  pose proof (consistent_UnmarshalJSON data n Hn) as Hn'.
  rewrite (elem_of_Devices_keyed _ _ Hn'), (elem_of_Devices_keyed _ _ Hn).
  rewrite (UnmarshalJSON_Ok _ _ _ Hdec). simpl.
  set (l := serializedNetwork.Devices state) in *.
  destruct (decide (Device.key d ∈ Device.key <$> l)) as [Hin|Hout].
  - apply list_elem_of_fmap in Hin as (y & Hk & Hy).
    pose proof (upsert_all_functional Device.key l (devices n) y Hfun Hy) as Hy'.
    rewrite <- Hk in Hy'. rewrite Hy'. split.
    + intros [= ->]. by left.
    + intros [Hd|[_ Hout]].
      * f_equal. by apply Hfun.
      * destruct Hout. apply list_elem_of_fmap. eauto.
  - rewrite upsert_all_absent by done. split.
    + intros Hd. by right.
    + intros [Hd|[Hd _]]; [|done].
      destruct Hout. apply list_elem_of_fmap. eauto.
Qed.

Lemma UnmarshalJSON_devices_result_witness :
  @json_Unmarshal sample_runtime plug_document
    = Ok (serializedNetwork.Build [plug] []) ∧
  (lamp ∈ Devices (@UnmarshalJSON sample_runtime plug_document
             (@run sample_runtime [OpAddDevice bulb; OpAddDevice lamp]
                (NewNetworkState false))).1 ↔
   lamp ∈ [plug] ∨
   (lamp ∈ Devices (@run sample_runtime [OpAddDevice bulb; OpAddDevice lamp]
                      (NewNetworkState false)) ∧
    Device.key lamp ∉ Device.key <$> [plug])).
Proof.
  split; [vm_compute; reflexivity|].
  apply (@UnmarshalJSON_devices_result sample_runtime false
    [OpAddDevice bulb; OpAddDevice lamp] plug_document
    (serializedNetwork.Build [plug] [])).
  - vm_compute; reflexivity.
  - simpl. intros x y Hx Hy _.
    apply list_elem_of_singleton in Hx. apply list_elem_of_singleton in Hy.
    congruence.
Defined.

(** ** Saving and starting again *)

(** X21: [Shutdown] succeeds exactly when [MarshalJSON] yields a document
    and [WriteFile], given the path of the registry, that document and mode
    0644, accepts it.  When [MarshalJSON] fails the error is returned
    whatever [WriteFile] would do. *)
Theorem Shutdown_outcome `{rt : Runtime}
    (wrap : error → error) (write : string → string → N → option error)
    (n : Network) :
  (Shutdown wrap write n = None ↔
   ∃ data, MarshalJSON n = Ok data ∧ write (filePath n) data 420 = None) ∧
  (∀ e (write' : string → string → N → option error),
     MarshalJSON n = Err e →
     Shutdown wrap write' n =
       Some (Wrapf (wrap e)
               ("Unable to marshal network state to file " +:+ filePath n))) ∧
  (∀ data e, MarshalJSON n = Ok data →
     write (filePath n) data 420 = Some e →
     Shutdown wrap write n =
       Some (Wrapf e ("Unabel to write content to file " +:+ filePath n))).
Proof.
  unfold Shutdown, json_Marshal_Network, state_file_mode.
  split; [|split].
  - destruct (MarshalJSON n) as [data|e]; [|split; [done | by intros (? & ? & _)]].
    destruct (write (filePath n) data 420) as [e|] eqn:Hw.
    + split; [done|]. intros (data' & [= <-] & Hw'). congruence.
    + split; [|done]. intros _. by exists data.
  - intros e write' ->. done.
  - intros data e -> ->. done.
Qed.

(** X22: saving and starting again.  A registry with any history, in a
    process with runtime [saving], is saved by a successful [Shutdown]; the
    next process, with runtime [next], finds the written document in the
    state file and its decoder returns the arrays that were encoded (in any
    order).  Then [Startup] of a new registry without the reset flag
    succeeds in the next process and the registry holds the same devices
    and groups; its listener list is empty. *)
Theorem restart_restores_registry (saving next : Runtime)
    (wrap : error → error) (write : string → string → N → option error)
    (r : bool) (history : list Op) :
  let n := @run saving history (NewNetworkState r) in
  @Shutdown saving wrap write n = None →
  (∀ data, @MarshalJSON saving n = Ok data →
     write "simple-network.json" data 420 = None →
     @os_Stat next "simple-network.json" = None ∧
     @ioutil_ReadFile next "simple-network.json" = Ok data ∧
     ∃ state, @json_Unmarshal next data = Ok state ∧
       serializedNetwork.Devices state ≡ₚ Devices n ∧
       serializedNetwork.Groups state ≡ₚ Groups n) →
  let started := @Startup next (NewNetworkState false) in
  started.2 = None ∧
  Devices started.1 ≡ₚ Devices n ∧
  Groups started.1 ≡ₚ Groups n ∧
  listeners started.1 = [].
Proof.
  intros n Hsave Hnext started.
  pose proof (@consistent_history saving r history) as [Hkd Hkg].
  fold n in Hkd, Hkg.
  pose proof (@run_frame saving history (NewNetworkState r)) as [_ Hpath].
  fold n in Hpath. simpl in Hpath.
  unfold Shutdown, json_Marshal_Network, state_file_mode in Hsave.
  rewrite Hpath in Hsave.
  destruct (@MarshalJSON saving n) as [data|e] eqn:Hm; [|done].
  destruct (write defaultStateFilePath data 420) as [e|] eqn:Hw; [done|].
  destruct (Hnext data eq_refl Hw) as (Hstat & Hread & state & Hdec & HD & HG).
  assert (E : started =
    (MkNetwork (upsert_all Device.key ∅ (serializedNetwork.Devices state))
       (upsert_all GroupAddress.GroupID ∅ (serializedNetwork.Groups state))
       [] false defaultStateFilePath, None)).
  { unfold started, Startup, json_Unmarshal_Network. simpl.
    change defaultStateFilePath with "simple-network.json".
    rewrite Hstat, Hread. simpl.
    by rewrite (@UnmarshalJSON_Ok next _ _ _ Hdec). }
  rewrite E. simpl. unfold Devices, Groups. simpl.
  rewrite (upsert_all_rebuild Device.key (devices n)) by done.
  rewrite (upsert_all_rebuild GroupAddress.GroupID (groups n)) by done.
  done.
Qed.

(** The saving process has no state file yet; the next one finds the file
    with the plug. *)
Lemma restart_restores_registry_witness :
  @Shutdown (table_runtime known_snapshots ∅) (λ e, e) write_accepted
    (@run (table_runtime known_snapshots ∅) [OpStartup; OpAddDevice plug]
       (NewNetworkState true)) = None ∧
  Devices (@Startup sample_runtime (NewNetworkState false)).1
    ≡ₚ Devices (@run (table_runtime known_snapshots ∅)
                  [OpStartup; OpAddDevice plug] (NewNetworkState true)).
Proof.
  split; [vm_compute; reflexivity|].
  refine (proj1 (proj2 (restart_restores_registry
    (table_runtime known_snapshots ∅) sample_runtime (λ e, e)
    write_accepted true [OpStartup; OpAddDevice plug] _ _))).
  - vm_compute; reflexivity.
  - intros data Hm _. vm_compute in Hm. injection Hm as <-.
    split; [reflexivity|]. split; [vm_compute; reflexivity|].
    exists (serializedNetwork.Build [plug] []).
    split; [vm_compute; reflexivity|]. split; vm_compute; reflexivity.
Defined.

Section merged_values.
Context {K V : Type} `{Countable K} (key : V → K).

(** Storing a map's own values into it, in any order, changes nothing. *)
Lemma upsert_all_own_values (m : gmap K V) (l : list V) :
  keyed_by key m → l ≡ₚ (map_to_list m).*2 → upsert_all key m l = m.
Proof.
  intros Hm Hl. apply map_eq. intros k.
  destruct (decide (k ∈ key <$> l)) as [Hin|Hout].
  - rewrite (upsert_all_base key l m ∅ k Hin).
    by rewrite (upsert_all_rebuild key m l Hm Hl).
  - by rewrite upsert_all_absent.
Qed.

End merged_values.

(** X23: deserializing into a registry a document that decodes to the
    registry's own devices and groups (in any order) changes nothing. *)
Theorem UnmarshalJSON_own_snapshot `{rt : Runtime}
    (r : bool) (history : list Op) (data : string) (state : serializedNetwork.t) :
  let n := run history (NewNetworkState r) in
  json_Unmarshal data = Ok state →
  serializedNetwork.Devices state ≡ₚ Devices n →
  serializedNetwork.Groups state ≡ₚ Groups n →
  UnmarshalJSON data n = (n, None).
Proof.
  intros n Hdec HD HG.
  pose proof (consistent_history r history) as [Hkd Hkg]. fold n in Hkd, Hkg.
  rewrite (UnmarshalJSON_Ok _ _ _ Hdec). f_equal.
  apply Network_eq; simpl; try done; by apply upsert_all_own_values.
Qed.

Lemma UnmarshalJSON_own_snapshot_witness :
  @json_Unmarshal sample_runtime plug_document
    = Ok (serializedNetwork.Build [plug] []) ∧
  @UnmarshalJSON sample_runtime plug_document
     (@run sample_runtime [OpAddDevice plug] (NewNetworkState false))
  = (@run sample_runtime [OpAddDevice plug] (NewNetworkState false), None).
Proof.
  split; [vm_compute; reflexivity|].
  apply (@UnmarshalJSON_own_snapshot sample_runtime false [OpAddDevice plug]
           plug_document (serializedNetwork.Build [plug] [])).
  - vm_compute; reflexivity.
  - vm_compute; reflexivity.
  - vm_compute; reflexivity.
Defined.

(** X24: adding two devices with different network addresses gives the
    same registry in either order. *)
Theorem AddDevice_commutes (d1 d2 : Device.t) (n : Network) :
  Device.NetworkAddress d1 ≠ Device.NetworkAddress d2 →
  (AddDevice d2 (AddDevice d1 n).1).1 = (AddDevice d1 (AddDevice d2 n).1).1.
Proof.
  intros Hne. apply Network_eq; try done. simpl.
  apply insert_insert_ne. intros Hk. by apply Device_key_eq in Hk.
Qed.

Lemma AddDevice_commutes_witness :
  Device.NetworkAddress bulb ≠ Device.NetworkAddress plug ∧
  (AddDevice plug (AddDevice bulb (NewNetworkState false)).1).1
  = (AddDevice bulb (AddDevice plug (NewNetworkState false)).1).1.
Proof.
  split; [discriminate|].
  apply (AddDevice_commutes bulb plug (NewNetworkState false)). discriminate.
Defined.
